(** * A blog publishing application: the request handlers of [app.js]

    The handlers of [src/app.js] are embedded as functions over an explicit
    state, the file [data/posts.json].  The built-ins of the language the
    handlers rely on ([parseInt], [slice], [sort], [toLowerCase], ...) are
    written out in [Module JS]; the libraries the application calls
    ([marked], [sanitize-html], the engine's date parser) are variables of
    the section that holds the handlers.

    Numbers are integers of [Z]: every number the handlers compute is an
    integer, and the model is exact as long as magnitudes stay below 2^53.
    A string is a sequence of code units; the model keeps the code units
    0..255, which is what [string] holds.  The search, whose lowering of
    strings depends on the context beyond these code units, is embedded a
    second time over 16-bit code units ([Module Wide]). *)

From Stdlib Require Import ZArith List String Ascii Bool Lia.
From Stdlib Require Import Sorted Permutation.
From Stdlib Require Import DecimalString DecimalZ.
Import ListNotations.

Local Open Scope Z_scope.

(** ** The built-ins of the language *)

Module JS.

(** *** Strings *)

(** [!s] is true of the empty string only. *)
Definition truthy (s : string) : bool :=
  match s with
  | EmptyString => false
  | String _ _ => true
  end.

(** [x || d] where [x] is a string or [undefined]. *)
Definition or_else (x : option string) (d : string) : string :=
  match x with
  | Some s => if truthy s then s else d
  | None => d
  end.

(** The code units [\s] and [parseInt] take for white space: TAB, LF, VT,
    FF, CR, SP and NBSP. *)
Definition isWhiteSpace (c : ascii) : bool :=
  let n := N_of_ascii c in
  ((9 <=? n) && (n <=? 13) || (n =? 32) || (n =? 160))%N.

(** [toLowerCase] on one code unit: A-Z, and the capital letters of the
    upper half (U+00C0..U+00DE without the multiplication sign). *)
Definition lower (c : ascii) : ascii :=
  let n := N_of_ascii c in
  if ((65 <=? n) && (n <=? 90)
      || (192 <=? n) && (n <=? 222) && negb (n =? 215))%N
  then ascii_of_N (n + 32) else c.

Fixpoint toLowerCase (s : string) : string :=
  match s with
  | EmptyString => EmptyString
  | String c s' => String (lower c) (toLowerCase s')
  end.

(** [s.startsWith(p)] *)
Fixpoint startsWith (s p : string) : bool :=
  match p, s with
  | EmptyString, _ => true
  | String _ _, EmptyString => false
  | String a p', String b s' => Ascii.eqb a b && startsWith s' p'
  end.

(** [s.includes(q)]: [q] starts at some position of [s]. *)
Fixpoint includes (s q : string) : bool :=
  startsWith s q ||
  match s with
  | EmptyString => false
  | String _ s' => includes s' q
  end.

(** [s.substring(0, n)] for a non-negative [n]. *)
Definition substring0 (n : nat) (s : string) : string :=
  String.substring 0 n s.

(** [s.split(/\s+/)]: the pieces between the maximal runs of white space.
    [cur] is the piece being read; [inws] says that the last
    code unit read was white space. *)
Fixpoint split_ws_aux (s : string) (cur : string) (inws : bool)
  : list string :=
  match s with
  | EmptyString => [cur]
  | String c s' =>
      if isWhiteSpace c
      then if inws then split_ws_aux s' cur true
           else cur :: split_ws_aux s' EmptyString true
      else split_ws_aux s' (cur ++ String c EmptyString)%string false
  end.

Definition split_ws (s : string) : list string :=
  split_ws_aux s EmptyString false.

(** *** Numbers *)

(** [Math.ceil(a / b)] for integers [a] and a positive [b]. *)
Definition ceil_div (a b : Z) : Z := - ((- a) / b).

(** [String(n)] for an integer. *)
Definition toString (n : Z) : string :=
  NilZero.string_of_int (Z.to_int n).

(** The value of a digit in radix 36, as [parseInt] reads it. *)
Definition digit_value (c : ascii) : option Z :=
  let n := Z.of_N (N_of_ascii c) in
  if (48 <=? n) && (n <=? 57) then Some (n - 48)
  else if (97 <=? n) && (n <=? 122) then Some (n - 87)
  else if (65 <=? n) && (n <=? 90) then Some (n - 55)
  else None.

Fixpoint trimStart (s : string) : string :=
  match s with
  | String c s' => if isWhiteSpace c then trimStart s' else s
  | EmptyString => s
  end.

(** The longest prefix of [s] made of digits of radix [R], read as a
    number; [acc] is [None] until a digit has been read. *)
Fixpoint digits (R : Z) (s : string) (acc : option Z) : option Z :=
  match s with
  | EmptyString => acc
  | String c s' =>
      match digit_value c with
      | Some d =>
          if d <? R
          then digits R s' (Some (match acc with
                                  | Some a => a * R + d
                                  | None => d
                                  end))
          else acc
      | None => acc
      end
  end.

(** [parseInt(s)] without a radix; [None] is NaN.  Leading white space is
    dropped, then a sign, then the prefix 0x or 0X that selects radix
    16. *)
Definition parseInt (s : string) : option Z :=
  let s1 := trimStart s in
  let '(sign, s2) :=
    match s1 with
    | String "-" r => (-1, r)
    | String "+" r => (1, r)
    | _ => (1, s1)
    end in
  let '(R, s3) :=
    match s2 with
    | String "0" (String "x" r) => (16, r)
    | String "0" (String "X" r) => (16, r)
    | _ => (10, s2)
    end in
  match digits R s3 None with
  | Some v => Some (sign * v)
  | None => None
  end.

(** [parseInt(x)] for a query parameter, which is a string or missing:
    [undefined] is first turned into the string "undefined". *)
Definition parseInt_param (x : option string) : option Z :=
  parseInt (match x with Some s => s | None => "undefined"%string end).

(** *** Arrays *)

Section Arrays.
Context {A : Type}.

(** [l.slice(start, end)]: a negative index counts from the end, and
    both indices are clamped to the array. *)
Definition slice (l : list A) (start stop : Z) : list A :=
  let len := Z.of_nat (List.length l) in
  let clamp i := if i <? 0 then Z.max (len + i) 0 else Z.min i len in
  let k := clamp start in
  let final := clamp stop in
  firstn (Z.to_nat (Z.max (final - k) 0)) (skipn (Z.to_nat k) l).

(** [l[i]]; [None] is [undefined]. *)
Definition at_index (l : list A) (i : Z) : option A :=
  if i <? 0 then None else nth_error l (Z.to_nat i).

(** [l.findIndex(f)], -1 when no element satisfies [f]. *)
Fixpoint findIndex (f : A -> bool) (l : list A) : Z :=
  match l with
  | [] => -1
  | x :: l' =>
      if f x then 0
      else let i := findIndex f l' in if i <? 0 then -1 else i + 1
  end.

(** [l.sort(cmp)]: [cmp x y > 0] puts [x] after [y].  The language
    requires the sort to be stable; a stable insertion sort stands for
    the engine's algorithm (for a comparator that is a total preorder
    the stable sorted arrangement is unique, see [sort_unique]). *)
Fixpoint insert (cmp : A -> A -> Z) (x : A) (l : list A) : list A :=
  match l with
  | [] => [x]
  | y :: l' => if 0 <? cmp x y then y :: insert cmp x l' else x :: l
  end.

Fixpoint sort (cmp : A -> A -> Z) (l : list A) : list A :=
  match l with
  | [] => []
  | x :: l' => insert cmp x (sort cmp l')
  end.
End Arrays.

End JS.

(** ** Strings beyond the code units 0..255

    The search is also embedded over strings of 16-bit code units, with
    the lowering of the engine for the code units 0..255 and for the
    Greek letters U+0391..U+03A9 and U+03B1..U+03C9: the simple mapping
    of each code unit, and the one context-sensitive mapping of the
    language-independent casing rules, which lowers a capital sigma to
    the final sigma U+03C2 at the end of a word.  Code units outside
    this range are outside what is modelled (they are left as they
    are). *)

Module Wide.

Definition ustring : Type := list N.



Definition truthy (u : ustring) : bool :=
  match u with
  | [] => false
  | _ :: _ => true
  end.

Definition or_else (x : option ustring) (d : ustring) : ustring :=
  match x with
  | Some u => if truthy u then u else d
  | None => d
  end.

Local Open Scope N_scope.

(** The property Cased: the letters that have a case. *)
Definition cased (c : N) : bool :=
  (65 <=? c) && (c <=? 90) || (97 <=? c) && (c <=? 122)
  || (c =? 170) || (c =? 181) || (c =? 186)
  || (192 <=? c) && (c <=? 214) || (216 <=? c) && (c <=? 246)
  || (248 <=? c) && (c <=? 255)
  || (913 <=? c) && (c <=? 929) || (931 <=? c) && (c <=? 937)
  || (945 <=? c) && (c <=? 969).

(** The property Case_Ignorable: apostrophe, full stop, colon,
    circumflex, grave, diaeresis, soft hyphen, macron, acute, middle
    dot, cedilla. *)
Definition case_ignorable (c : N) : bool :=
  (c =? 39) || (c =? 46) || (c =? 58) || (c =? 94) || (c =? 96)
  || (c =? 168) || (c =? 173) || (c =? 175) || (c =? 180)
  || (c =? 183) || (c =? 184).

(** The lower-case mapping of one code unit. *)
Definition simple_lower (c : N) : N :=
  if (65 <=? c) && (c <=? 90)
     || (192 <=? c) && (c <=? 222) && negb (c =? 215)
     || (913 <=? c) && (c <=? 929) || (931 <=? c) && (c <=? 937)
  then c + 32 else c.

(** What follows is case-ignorable units and then a cased letter. *)
Fixpoint followed_by_cased (s : ustring) : bool :=
  match s with
  | [] => false
  | c :: s' => if case_ignorable c then followed_by_cased s' else cased c
  end.

(** [after_cased]: what precedes is a cased letter and then
    case-ignorable units.  A capital sigma (U+03A3) there, not followed
    by a cased letter, lowers to the final sigma (U+03C2). *)
Fixpoint lower_from (after_cased : bool) (s : ustring) : ustring :=
  match s with
  | [] => []
  | c :: s' =>
      (if (c =? 931) && after_cased && negb (followed_by_cased s')
       then 962 else simple_lower c)
      :: lower_from (if case_ignorable c then after_cased else cased c) s'
  end.

Definition toLowerCase (s : ustring) : ustring := lower_from false s.

Fixpoint startsWith (s p : ustring) : bool :=
  match p, s with
  | [], _ => true
  | _ :: _, [] => false
  | a :: p', b :: s' => (a =? b) && startsWith s' p'
  end.

Fixpoint includes (s q : ustring) : bool :=
  startsWith s q ||
  match s with
  | [] => false
  | _ :: s' => includes s' q
  end.

End Wide.

(** ** The application *)

Module Blog.

(** A post, as [posts.json] holds it. *)
Record Post : Type := {
  id : Z;
  title : string;
  content : string;
  excerpt : string;
  author : string;
  createdAt : string;
  readingTime : Z
}.

(** The document of [posts.json]: [{ posts: [...] }]. *)
Record Document : Type := { posts : list Post }.

(** The state of [data/posts.json]: absent, holding a document, or in a
    state where reading it fails otherwise (an I/O error, or a content
    that is not such a document). *)
Inductive File : Type :=
| Absent
| Holds (d : Document)
| Unreadable.

(** What a handler can catch: [error.code === 'ENOENT'], or anything
    else. *)
Inductive Exn : Type :=
| ENOENT
| OtherError.

(** A computation on the file: the file after it, and what it threw or
    returned. *)
Definition IO (A : Type) : Type := File -> File * (Exn + A).

Definition ret {A} (a : A) : IO A := fun f => (f, inr a).

Definition throw {A} (e : Exn) : IO A := fun f => (f, inl e).

Definition bind {A B} (c : IO A) (k : A -> IO B) : IO B :=
  fun f =>
    match c f with
    | (f', inr a) => k a f'
    | (f', inl e) => (f', inl e)
    end.

(** [try { body } catch (error) { handler }] *)
Definition try_catch {A} (body : IO A) (handler : Exn -> IO A) : IO A :=
  fun f =>
    match body f with
    | (f', inl e) => handler e f'
    | r => r
    end.

Declare Scope io_scope.
Delimit Scope io_scope with io.
Notation "x <- c ;; k" := (bind c (fun x => k))
  (at level 61, c at next level, right associativity) : io_scope.
Notation "c ;; k" := (bind c (fun _ => k))
  (at level 61, right associativity) : io_scope.

(** [fs.readFile] followed by [JSON.parse], and [fs.writeFile] of
    [JSON.stringify]; a write replaces the whole document. *)
Definition readFile : IO Document :=
  fun f =>
    match f with
    | Absent => (f, inl ENOENT)
    | Holds d => (f, inr d)
    | Unreadable => (f, inl OtherError)
    end.

Definition writeFile (d : Document) : IO unit :=
  fun _ => (Holds d, inr tt).

Definition readPosts : IO Document :=
  try_catch readFile
    (fun error =>
       match error with
       | ENOENT =>
           let initialData := {| posts := [] |} in
           (writeFile initialData ;; ret initialData)%io
       | _ => throw error
       end).

Definition writePosts (d : Document) : IO unit := writeFile d.

(** The options [sanitizeHtml] takes: the tags kept, and for a tag the
    attributes kept. *)
Record Options : Type := {
  allowedTags : list string;
  allowedAttributes : list (string * list string)
}.

(** [{ ...o, k: v }]: the key keeps its place when [o] has it. *)
Fixpoint assign (o : list (string * list string)) (k : string)
  (v : list string) : list (string * list string) :=
  match o with
  | [] => [(k, v)]
  | (k', v') :: o' =>
      if String.eqb k' k then (k, v) :: o' else (k', v') :: assign o' k v
  end.

(** What a page is rendered from: the view and its locals. *)
Inductive View : Type :=
| home (featuredPosts : list Post)
| posts_view (posts : list Post) (currentPage totalPages : Z)
| post_view (post : Post) (processedContent : string)
    (prevPost nextPost : option Post)
| add_post_view
| search_view (query : option string) (posts : list Post)
| error_view (error : string).

Inductive Response : Type :=
| Render (status : Z) (view : View)
| Redirect (location : string)
| Json (status : Z) (key value : string).

(** The body of a submission: each field is a string or missing. *)
Record Body : Type := {
  b_title : option string;
  b_content : option string;
  b_author : option string;
  b_excerpt : option string
}.

(** [!x] for a field that is a string or missing. *)
Definition missing (x : option string) : bool :=
  match x with
  | Some s => negb (JS.truthy s)
  | None => true
  end.

(** A field that has passed the check [!x]: the string it holds. *)
Definition field (x : option string) : string := JS.or_else x "".

(** The time value of the ISO format [toISOString] writes,
    YYYY-MM-DDTHH:mm:ss.sssZ, and of its date-only form: milliseconds
    since 1970-01-01T00:00:00Z.  An instance of the date parser for
    concrete collections. *)
Fixpoint number_at (s : string) (from len : nat) (acc : Z) : Z :=
  match from, s with
  | S from', String _ s' => number_at s' from' len acc
  | O, String c s' =>
      match len with
      | O => acc
      | S len' =>
          number_at s' O len' (acc * 10 + (Z.of_N (N_of_ascii c) - 48))
      end
  | _, EmptyString => acc
  end.

Definition days_from_civil (y m d : Z) : Z :=
  let y' := if m <=? 2 then y - 1 else y in
  let era := y' / 400 in
  let yoe := y' - era * 400 in
  let doy := (153 * (if 2 <? m then m - 3 else m + 9) + 2) / 5 + d - 1 in
  let doe := yoe * 365 + yoe / 4 - yoe / 100 + doy in
  era * 146097 + doe - 719468.

Definition iso_time (s : string) : Z :=
  days_from_civil (number_at s 0 4 0) (number_at s 5 2 0)
    (number_at s 8 2 0) * 86400000
  + number_at s 11 2 0 * 3600000 + number_at s 14 2 0 * 60000
  + number_at s 17 2 0 * 1000 + number_at s 20 3 0.

(** *** Instances for concrete runs *)

(** The sanitizer on texts without markup, which it leaves as they are;
    no Markdown; no default options. *)
Definition plain_text (s : string) (o : option Options) : string := s.

Definition no_markdown (s : string) : string := s.

Definition no_defaults : Options :=
  {| allowedTags := []; allowedAttributes := [] |}.

Definition entry (i : Z) (t date : string) : Post :=
  {| id := i; title := t; content := "text"; excerpt := "text...";
     author := "ann"; createdAt := date; readingTime := 1 |}.

(** The collection of the example of the specification. *)
Definition two_posts : list Post :=
  [entry 1 "A" "2024-01-01"; entry 2 "B" "2024-02-01"].

(** Seven posts, one a day. *)
Definition week : list Post :=
  [entry 1 "Mon" "2024-01-01T08:00:00.000Z";
   entry 2 "Tue" "2024-01-02T08:00:00.000Z";
   entry 3 "Wed" "2024-01-03T08:00:00.000Z";
   entry 4 "Thu" "2024-01-04T08:00:00.000Z";
   entry 5 "Fri" "2024-01-05T08:00:00.000Z";
   entry 6 "Sat" "2024-01-06T08:00:00.000Z";
   entry 7 "Sun" "2024-01-07T08:00:00.000Z"].

(** A submission whose excerpt field is there and empty, as a form left
    blank sends it, and one whose author is empty. *)
Definition submission : Body :=
  {| b_title := Some "T"; b_content := Some "abc def";
     b_author := Some "ann"; b_excerpt := Some "" |}%string.

Definition no_author : Body :=
  {| b_title := Some "T"; b_content := Some "abc def";
     b_author := Some ""; b_excerpt := None |}%string.

(** *** The search over strings of 16-bit code units *)








Section App.

Set Default Proof Using "Type".

(** The libraries the application calls: [marked], [sanitizeHtml] with
    the options it is given, if any, and its default options.
    [getTime s] is the time value of [new Date(s)], in milliseconds, for
    the timestamps the store holds (an invalid date is outside the data
    model). *)
Variable marked : string -> string.
Variable sanitizeHtml : string -> option Options -> string.
Variable defaults : Options.
Variable getTime : string -> Z.

Definition processPostContent (content : string) : string :=
  let htmlContent := marked content in
  sanitizeHtml htmlContent
    (Some {|
       allowedTags :=
         allowedTags defaults ++ ["img"; "h1"; "h2"; "h3"]%string;
       allowedAttributes :=
         assign
           (assign (allowedAttributes defaults) "a"
              ["href"; "target"; "rel"]%string)
           "img" ["src"; "alt"; "title"]%string
     |}).

(** [(a, b) => new Date(b.createdAt) - new Date(a.createdAt)] *)
Definition byDateDesc (a b : Post) : Z :=
  getTime (createdAt b) - getTime (createdAt a).

(** [[...posts].sort(byDateDesc)] *)
Definition sortedPosts (l : list Post) : list Post :=
  JS.sort byDateDesc l.

(** [try { body } catch (error) { res.status(500).render('error', ...) }] *)
Definition guarded (body : IO Response) (message : string)
  : IO Response :=
  try_catch body
    (fun _ => ret (Render 500 (error_view message))).

(** GET / *)
Definition get_home : IO Response :=
  guarded
    (d <- readPosts ;;
     let sorted := sortedPosts (posts d) in
     let featuredPosts := JS.slice sorted 0 3 in
     ret (Render 200 (home featuredPosts)))%io
    "Error loading homepage".

(** The page a request for /posts asks for:
    [parseInt(req.query.page) || 1]. *)
Definition page_of (q : option string) : Z :=
  match JS.parseInt_param q with
  | Some n => if n =? 0 then 1 else n
  | None => 1
  end.

(** GET /posts?page=N *)
Definition get_posts (q_page : option string) : IO Response :=
  guarded
    (let page := page_of q_page in
     let limit := 6 in
     d <- readPosts ;;
     let sorted := sortedPosts (posts d) in
     let totalPosts := Z.of_nat (List.length sorted) in
     let totalPages := JS.ceil_div totalPosts limit in
     let offset := (page - 1) * limit in
     let paginatedPosts := JS.slice sorted offset (offset + limit) in
     ret (Render 200 (posts_view paginatedPosts page totalPages)))%io
    "Error loading posts".

(** [p => p.id === id], where [id] is a number or NaN. *)
Definition has_id (n : option Z) (p : Post) : bool :=
  match n with
  | Some n => id p =? n
  | None => false
  end.

(** GET /post?id=N.  The assignment to [post.processedContent] changes
    the object read for this request only; it is carried by the view. *)
Definition get_post (q_id : option string) : IO Response :=
  guarded
    (let n := JS.parseInt_param q_id in
     d <- readPosts ;;
     match find (has_id n) (posts d) with
     | None => ret (Render 404 (error_view "Post not found"))
     | Some post =>
         let sorted := sortedPosts (posts d) in
         let currentIndex := JS.findIndex (has_id n) sorted in
         let prevPost :=
           if currentIndex <? Z.of_nat (List.length sorted) - 1
           then JS.at_index sorted (currentIndex + 1) else None in
         let nextPost :=
           if 0 <? currentIndex
           then JS.at_index sorted (currentIndex - 1) else None in
         let processedContent := processPostContent (content post) in
         ret (Render 200
                (post_view post processedContent prevPost nextPost))
     end)%io
    "Error loading post".

(** GET /add-post *)
Definition get_add_post : IO Response :=
  ret (Render 200 add_post_view).

(** POST /preview-post; [marked] throws when there is no content. *)
Definition post_preview_post (content : option string) : IO Response :=
  try_catch
    (match content with
     | Some content =>
         ret (Json 200 "preview" (processPostContent content))
     | None => throw OtherError
     end)
    (fun _ => ret (Json 500 "error" "Error generating preview")).

(** [posts.length > 0 ? Math.max(...posts.map(p => p.id)) + 1 : 1] *)
Definition next_id (l : list Post) : Z :=
  match map id l with
  | [] => 1
  | x :: xs => fold_left Z.max xs x + 1
  end.

(** The post a submission creates; [now] is
    [new Date().toISOString()]. *)
Definition newPost (l : list Post) (title content author : string)
  (excerpt : option string) (now : string) : Post :=
  {| id := next_id l;
     title := sanitizeHtml title None;
     content := content;
     excerpt :=
       sanitizeHtml
         (JS.or_else excerpt
            (JS.substring0 150 content ++ "...")%string)
         None;
     author := sanitizeHtml author None;
     createdAt := now;
     readingTime :=
       JS.ceil_div (Z.of_nat (List.length (JS.split_ws content))) 200 |}.

(** POST /add-post *)
Definition post_add_post (body : Body) (now : string) : IO Response :=
  guarded
    (if missing (b_title body) || missing (b_content body)
        || missing (b_author body)
     then ret (Render 400 (error_view "All fields are required"))
     else
       d <- readPosts ;;
       let post :=
         newPost (posts d) (field (b_title body))
           (field (b_content body)) (field (b_author body))
           (b_excerpt body) now in
       writePosts {| posts := posts d ++ [post] |} ;;
       ret (Redirect ("/post?id=" ++ JS.toString (id post))%string))%io
    "Error saving post".

(** [post => post.title.toLowerCase().includes(query) || ...] *)
Definition matches (query : string) (post : Post) : bool :=
  JS.includes (JS.toLowerCase (title post)) query
  || JS.includes (JS.toLowerCase (content post)) query
  || JS.includes (JS.toLowerCase (author post)) query.

(** GET /search?q=term *)
Definition get_search (q : option string) : IO Response :=
  guarded
    (let query := JS.toLowerCase (JS.or_else q "") in
     if negb (JS.truthy query) then ret (Redirect "/")
     else
       d <- readPosts ;;
       let searchResults :=
         JS.sort byDateDesc (filter (matches query) (posts d)) in
       ret (Render 200 (search_view q searchResults)))%io
    "Error performing search".

(** The requests the application routes; any other request is
    [Unmatched]. *)
Inductive Request : Type :=
| GET_home
| GET_posts (page : option string)
| GET_post (id : option string)
| GET_add_post
| POST_preview_post (content : option string)
| POST_add_post (body : Body) (now : string)
| GET_search (q : option string)
| Unmatched.

Definition handle (r : Request) : IO Response :=
  match r with
  | GET_home => get_home
  | GET_posts page => get_posts page
  | GET_post n => get_post n
  | GET_add_post => get_add_post
  | POST_preview_post c => post_preview_post c
  | POST_add_post body now => post_add_post body now
  | GET_search q => get_search q
  | Unmatched => ret (Render 404 (error_view "Page not found"))
  end.

(** *** What the specification speaks of *)

(** Newest first: every post is at least as recent as the posts after
    it. *)
Definition date_descending (l : list Post) : Prop :=
  StronglySorted
    (fun a b => getTime (createdAt b) <= getTime (createdAt a)) l.

(** The capital letters among the code units 0..255: A to Z, and the
    capitals U+00C0..U+00DE but for the multiplication sign; the small
    letter of a capital is 32 code units further. *)
Definition capital (c : ascii) : Prop :=
  let n := N_of_ascii c in
  (65 <= n <= 90 \/ 192 <= n <= 214 \/ 216 <= n <= 222)%N.

Definition small_of (c : ascii) : ascii := ascii_of_N (N_of_ascii c + 32).

(** Two code units are the same letter up to case: the same code unit,
    or a capital and its small letter in either order. *)
Inductive same_letter : ascii -> ascii -> Prop :=
| same_unit (c : ascii) : same_letter c c
| capital_small (c : ascii) : capital c -> same_letter c (small_of c)
| small_capital (c : ascii) : capital c -> same_letter (small_of c) c.

(** Two strings are the same text up to case: the same length, and at
    each position the same letter up to case. *)
Inductive same_text : string -> string -> Prop :=
| same_empty : same_text EmptyString EmptyString
| same_String (c d : ascii) (s t : string) :
    same_letter c d -> same_text s t ->
    same_text (String c s) (String d t).

(** [q] occurs in [s] when case is ignored: a part of [s] is [q] up to
    the case of its letters. *)
Definition occurs_ci (q s : string) : Prop :=
  exists pre m post,
    s = (pre ++ m ++ post)%string /\ same_text m q.

(** The term occurs in the title, the content or the author. *)
Definition found_in (q : string) (p : Post) : Prop :=
  occurs_ci q (title p) \/ occurs_ci q (content p)
  \/ occurs_ci q (author p).

(** [m] is the greatest identifier of the collection. *)
Definition greatest_id (m : Z) (l : list Post) : Prop :=
  (exists p, In p l /\ id p = m) /\ (forall p, In p l -> id p <= m).

(** The pages 1, ..., [n]. *)
Definition page_numbers (n : Z) : list Z :=
  map Z.of_nat (seq 1 (Z.to_nat n)).

(** The posts a listing shows. *)
Definition listed (r : File * (Exn + Response)) : list Post :=
  match r with
  | (_, inr (Render _ (posts_view l _ _))) => l
  | _ => []
  end.

(** The operations that only read: the home page, the listing, the
    single post and the search. *)
Definition read_only (r : Request) : bool :=
  match r with
  | GET_home | GET_posts _ | GET_post _ | GET_search _ => true
  | _ => false
  end.

(** [o[k]] for an object of attribute lists; [None] is [undefined]. *)
Fixpoint lookup (o : list (string * list string)) (k : string)
  : option (list string) :=
  match o with
  | [] => None
  | (k', v) :: o' => if String.eqb k' k then Some v else lookup o' k
  end.

(** The options [processPostContent] passes to [sanitizeHtml]. *)
Definition contentOptions : Options :=
  {| allowedTags :=
       allowedTags defaults ++ ["img"; "h1"; "h2"; "h3"]%string;
     allowedAttributes :=
       assign
         (assign (allowedAttributes defaults) "a"
            ["href"; "target"; "rel"]%string)
         "img" ["src"; "alt"; "title"]%string |}.

(** The posts the home page features, the posts a search shows, and the
    neighbours the page of a post links to. *)
Definition featured (r : File * (Exn + Response)) : list Post :=
  match r with
  | (_, inr (Render _ (home l))) => l
  | _ => []
  end.

Definition found (r : File * (Exn + Response)) : list Post :=
  match r with
  | (_, inr (Render _ (search_view _ l))) => l
  | _ => []
  end.

Definition prev_of (r : File * (Exn + Response)) : option Post :=
  match r with
  | (_, inr (Render _ (post_view _ _ p _))) => p
  | _ => None
  end.

Definition next_of (r : File * (Exn + Response)) : option Post :=
  match r with
  | (_, inr (Render _ (post_view _ _ _ n))) => n
  | _ => None
  end.

(** ** Facts about the built-ins *)

Section Sorting.
Context {A : Type}.
Variable key : A -> Z.
Variable cmp : A -> A -> Z.
Hypothesis cmp_key : forall x y, cmp x y = key y - key x.

Let desc (a b : A) : Prop := key b <= key a.

Lemma insert_perm (x : A) (l : list A) :
  Permutation (JS.insert cmp x l) (x :: l).
Proof.
  induction l as [|y l IH]; simpl.
  - apply Permutation_refl.
  - destruct (0 <? cmp x y).
    + rewrite perm_swap. now apply perm_skip.
    + apply Permutation_refl.
Qed.

Lemma sort_perm (l : list A) : Permutation (JS.sort cmp l) l.
Proof.
  induction l as [|x l IH]; simpl.
  - constructor.
  - rewrite insert_perm. now apply perm_skip.
Qed.

Lemma insert_sorted (x : A) (l : list A) :
  StronglySorted desc l -> StronglySorted desc (JS.insert cmp x l).
Proof using cmp_key.
  induction 1 as [|y l Hs IH Hy]; simpl.
  - repeat constructor.
  - rewrite cmp_key. destruct (Z.ltb_spec 0 (key y - key x)) as [Hlt|Hge].
    + constructor; [exact IH|].
      eapply Permutation_Forall.
      * symmetry. apply insert_perm.
      * constructor; [unfold desc; lia | exact Hy].
    + constructor.
      * now constructor.
      * constructor; [unfold desc; lia|].
        eapply Forall_impl; [|exact Hy].
        intros z Hz. unfold desc in *. lia.
Qed.

Lemma sort_sorted (l : list A) : StronglySorted desc (JS.sort cmp l).
Proof using cmp_key.
  induction l as [|x l IH]; simpl.
  - constructor.
  - now apply insert_sorted.
Qed.

(** The sort is stable: the elements of one key keep their order. *)
Lemma insert_stable (t : Z) (x : A) (l : list A) :
  StronglySorted desc l ->
  filter (fun a => key a =? t) (JS.insert cmp x l)
  = filter (fun a => key a =? t) (x :: l).
Proof using cmp_key.
  induction 1 as [|y l Hs IH Hy]; [reflexivity|].
  cbn [JS.insert]. rewrite cmp_key.
  destruct (Z.ltb_spec 0 (key y - key x)) as [Hlt|Hge];
    [|reflexivity].
  cbn [filter] in *. rewrite IH.
  destruct (Z.eqb_spec (key x) t), (Z.eqb_spec (key y) t);
    try reflexivity; lia.
Qed.

Lemma sort_stable (t : Z) (l : list A) :
  filter (fun a => key a =? t) (JS.sort cmp l)
  = filter (fun a => key a =? t) l.
Proof using cmp_key.
  induction l as [|x l IH]; [reflexivity|].
  cbn [JS.sort]. rewrite insert_stable by apply sort_sorted.
  cbn [filter]. now rewrite IH.
Qed.

Lemma filter_key_in (t : Z) (x : A) (l : list A) :
  In x (filter (fun a => key a =? t) l) <-> In x l /\ key x = t.
Proof. rewrite filter_In, Z.eqb_eq. reflexivity. Qed.

(** Two arrangements that are sorted and keep, for every key, the
    same elements in the same order are one arrangement. *)
Lemma sorted_stable_unique (l1 l2 : list A) :
  StronglySorted desc l1 -> StronglySorted desc l2 ->
  (forall t, filter (fun a => key a =? t) l1
             = filter (fun a => key a =? t) l2) ->
  l1 = l2.
Proof.
  intros H1. revert l2.
  induction H1 as [|x l1 Hs1 IH Hx]; intros l2 H2 Heq.
  - destruct l2 as [|y l2]; [reflexivity|].
    specialize (Heq (key y)). cbn in Heq.
    rewrite Z.eqb_refl in Heq. discriminate.
  - destruct H2 as [|y l2 Hs2 Hy].
    + specialize (Heq (key x)). cbn in Heq.
      rewrite Z.eqb_refl in Heq. discriminate.
    + assert (Hxy : key x = key y).
      { assert (In x (y :: l2)) as Hin1.
        { apply (filter_key_in (key x)). rewrite <- Heq.
          apply filter_key_in. split; [now left | reflexivity]. }
        assert (In y (x :: l1)) as Hin2.
        { apply (filter_key_in (key y)). rewrite Heq.
          apply filter_key_in. split; [now left | reflexivity]. }
        rewrite Forall_forall in Hx, Hy. unfold desc in *.
        destruct Hin1 as [->|Hin1]; [reflexivity|].
        destruct Hin2 as [->|Hin2]; [reflexivity|].
        specialize (Hx _ Hin2). specialize (Hy _ Hin1). lia. }
      assert (x = y) as ->.
      { specialize (Heq (key x)). cbn in Heq.
        rewrite <- Hxy, Z.eqb_refl in Heq. congruence. }
      f_equal. apply IH; [exact Hs2|].
      intros t. specialize (Heq t). cbn in Heq.
      destruct (key y =? t); congruence.
Qed.

(** Hence the insertion sort yields the arrangement every stable sort
    yields. *)
Lemma sort_unique (l l' : list A) :
  StronglySorted desc l' ->
  (forall t, filter (fun a => key a =? t) l'
             = filter (fun a => key a =? t) l) ->
  l' = JS.sort cmp l.
Proof using cmp_key.
  intros Hs Hst. apply sorted_stable_unique;
    [exact Hs | apply sort_sorted |].
  intros t. now rewrite Hst, sort_stable.
Qed.
End Sorting.

Section ArrayFacts.
Context {A : Type}.

(** A slice inside the array is a segment of it. *)
Lemma slice_segment (l : list A) (a n : nat) :
  JS.slice l (Z.of_nat a) (Z.of_nat a + Z.of_nat n)
  = firstn n (skipn a l).
Proof.
  unfold JS.slice.
  destruct (Z.ltb_spec (Z.of_nat a) 0) as [?|_]; [lia|].
  destruct (Z.ltb_spec (Z.of_nat a + Z.of_nat n) 0) as [?|_]; [lia|].
  destruct (Nat.le_gt_cases (List.length l) a) as [Hout|Hin].
  - rewrite !skipn_all2 by lia. now rewrite !firstn_nil.
  - replace (Z.to_nat (Z.min (Z.of_nat a) (Z.of_nat (List.length l))))
      with a by lia.
    destruct (Nat.le_gt_cases (a + n) (List.length l)) as [Hfit|Hcut].
    + f_equal. lia.
    + replace (Z.to_nat
                 (Z.max
                    (Z.min (Z.of_nat a + Z.of_nat n)
                       (Z.of_nat (List.length l))
                     - Z.min (Z.of_nat a) (Z.of_nat (List.length l)))
                    0))
        with (List.length l - a)%nat by lia.
      rewrite !firstn_all2; [reflexivity | |];
        rewrite length_skipn; lia.
Qed.

(** Segments of [n] elements, laid end to end, give back an array of
    at most [n * k] elements. *)
Lemma segments_concat (n k : nat) (l : list A) :
  (List.length l <= n * k)%nat ->
  List.concat (map (fun i => firstn n (skipn (n * i) l)) (seq 0 k)) = l.
Proof.
  revert l. induction k as [|k IH]; intros l Hlen.
  - destruct l; [reflexivity | simpl in Hlen; lia].
  - cbn [seq map List.concat]. rewrite <- seq_shift, map_map.
    rewrite Nat.mul_0_r. cbn [skipn].
    transitivity (firstn n l ++ skipn n l); [|apply firstn_skipn].
    f_equal.
    rewrite <- (IH (skipn n l)) by (rewrite length_skipn; lia).
    f_equal. apply map_ext. intros i.
    rewrite skipn_skipn. do 2 f_equal. lia.
Qed.

(** The element of a segment sits at a position of the segment. *)
Lemma in_segment (l : list A) (a n : nat) (x : A) :
  In x (firstn n (skipn a l)) ->
  exists k, (a <= k < a + n)%nat /\ nth_error l k = Some x.
Proof.
  intros Hin. apply In_nth_error in Hin. destruct Hin as [i Hi].
  assert (i < n)%nat as Hlt.
  { assert (nth_error (firstn n (skipn a l)) i <> None) as Hn
      by congruence.
    apply nth_error_Some in Hn. rewrite length_firstn in Hn. lia. }
  rewrite nth_error_firstn in Hi.
  destruct (Nat.ltb_spec i n); [|lia].
  rewrite nth_error_skipn in Hi.
  exists (a + i)%nat. split; [lia | exact Hi].
Qed.

Lemma findIndex_bounds (f : A -> bool) (l : list A) :
  -1 <= JS.findIndex f l < Z.of_nat (List.length l).
Proof.
  induction l as [|x l IH]; cbn [JS.findIndex List.length]; [lia|].
  destruct (f x); [lia|].
  destruct (Z.ltb_spec (JS.findIndex f l) 0); lia.
Qed.

(** When an element satisfies [f], [findIndex] is the first position
    that holds such an element. *)
Lemma findIndex_first (f : A -> bool) (l : list A) :
  existsb f l = true ->
  exists k x,
    JS.findIndex f l = Z.of_nat k
    /\ nth_error l k = Some x /\ f x = true
    /\ (forall j y, (j < k)%nat -> nth_error l j = Some y ->
                    f y = false).
Proof.
  induction l as [|a l IH]; cbn [existsb JS.findIndex];
    [discriminate|].
  destruct (f a) eqn:Hfa.
  - intros _. exists 0%nat, a. repeat split; auto. intros; lia.
  - cbn [orb]. intros Hex. destruct (IH Hex) as (k & x & Hk & Hx & Hfx & Hmin).
    exists (S k), x. rewrite Hk.
    destruct (Z.ltb_spec (Z.of_nat k) 0); [lia|].
    repeat split; [lia | exact Hx | exact Hfx |].
    intros [|j] y Hj Hy; cbn in Hy.
    + congruence.
    + apply (Hmin j); [lia | exact Hy].
Qed.

Lemma existsb_perm (f : A -> bool) (l l' : list A) :
  Permutation l l' -> existsb f l = existsb f l'.
Proof.
  induction 1; cbn; try congruence.
  - now rewrite !orb_assoc, (orb_comm (f y)).
Qed.

Lemma find_existsb (f : A -> bool) (l : list A) (x : A) :
  find f l = Some x -> existsb f l = true.
Proof.
  intros H. apply find_some in H. apply existsb_exists.
  now exists x.
Qed.
(** The neighbours of position [k], as the single-post page reads
    them. *)
Lemma at_index_after (l : list A) (k : nat) :
  (if Z.of_nat k <? Z.of_nat (List.length l) - 1
   then JS.at_index l (Z.of_nat k + 1) else None)
  = nth_error l (S k).
Proof.
  destruct (Z.ltb_spec (Z.of_nat k) (Z.of_nat (List.length l) - 1)).
  - unfold JS.at_index.
    destruct (Z.ltb_spec (Z.of_nat k + 1) 0); [lia|].
    f_equal. lia.
  - symmetry. apply nth_error_None. lia.
Qed.

Lemma at_index_before (l : list A) (k : nat) :
  (if 0 <? Z.of_nat k then JS.at_index l (Z.of_nat k - 1) else None)
  = match k with
    | O => None
    | S j => nth_error l j
    end.
Proof.
  destruct k as [|j]; [reflexivity|].
  destruct (Z.ltb_spec 0 (Z.of_nat (S j))); [|lia].
  unfold JS.at_index.
  destruct (Z.ltb_spec (Z.of_nat (S j) - 1) 0); [lia|].
  f_equal. lia.
Qed.

Lemma NoDup_map_eq {B : Type} (g : A -> B) (l : list A) (a b : A) :
  NoDup (map g l) -> In a l -> In b l -> g a = g b -> a = b.
Proof.
  induction l as [|x l IH]; cbn; [contradiction|].
  intros Hnd Ha Hb E. inversion Hnd as [|? ? Hx Hnd']; subst.
  destruct Ha as [->|Ha], Hb as [->|Hb]; auto.
  - exfalso. apply Hx. rewrite E. now apply in_map.
  - exfalso. apply Hx. rewrite <- E. now apply in_map.
Qed.
End ArrayFacts.

Section StringFacts.
Local Open Scope string_scope.

Lemma startsWith_spec (s p : string) :
  JS.startsWith s p = true <-> exists r, s = p ++ r.
Proof.
  revert s. induction p as [|a p IH]; intros s; cbn [JS.startsWith].
  - split; [intros _; now exists s | now destruct s].
  - destruct s as [|b s]; cbn [JS.startsWith].
    + split; [discriminate | intros [r Hr]; discriminate].
    + rewrite andb_true_iff, Ascii.eqb_eq, IH. split.
      * intros [-> [r ->]]. now exists r.
      * intros [r Hr]. cbn in Hr. injection Hr as -> ->.
        split; [reflexivity | now exists r].
Qed.

Lemma includes_spec (s q : string) :
  JS.includes s q = true <-> exists pre post, s = pre ++ q ++ post.
Proof.
  induction s as [|c s IH]; cbn [JS.includes];
    rewrite orb_true_iff, startsWith_spec.
  - split.
    + intros [[r Hr]|Hf]; [|discriminate]. now exists "", r.
    + intros (pre & post & H). left. destruct pre as [|? ?];
        [now exists post | discriminate].
  - rewrite IH. split.
    + intros [[r Hr]|(pre & post & H)].
      * now exists "", r.
      * exists (String c pre), post. cbn. now rewrite H.
    + intros ([|c' pre] & post & H).
      * left. now exists post.
      * right. cbn in H. injection H as -> ->. now exists pre, post.
Qed.

Lemma toLowerCase_app (a b : string) :
  JS.toLowerCase (a ++ b) = JS.toLowerCase a ++ JS.toLowerCase b.
Proof. induction a as [|c a IH]; cbn; [reflexivity | now rewrite IH]. Qed.

(** A split of the lowered string comes from a split of the string. *)
Lemma toLowerCase_split (s a b : string) :
  JS.toLowerCase s = a ++ b ->
  exists a' b',
    s = a' ++ b' /\ JS.toLowerCase a' = a /\ JS.toLowerCase b' = b.
Proof.
  revert s. induction a as [|c a IH]; intros s H.
  - now exists "", s.
  - destruct s as [|d s]; [discriminate|].
    cbn in H. injection H as Hc Hs.
    destruct (IH _ Hs) as (a' & b' & -> & Ha & Hb).
    exists (String d a'), b'. cbn. now rewrite Hc, Ha, Hb.
Qed.

Lemma truthy_toLowerCase (s : string) :
  JS.truthy (JS.toLowerCase s) = JS.truthy s.
Proof. now destruct s. Qed.

(** The lowering maps a capital to its small letter and leaves every
    other code unit as it is. *)
Lemma lower_capital (c : ascii) : capital c -> JS.lower c = small_of c.
Proof.
  unfold capital, JS.lower, small_of. cbv zeta. intros H.
  set (n := N_of_ascii c) in *.
  destruct (N.leb_spec 65 n), (N.leb_spec n 90), (N.leb_spec 192 n),
    (N.leb_spec n 222), (N.eqb_spec n 215); cbn; try reflexivity; lia.
Qed.

Lemma lower_other (c : ascii) : ~ capital c -> JS.lower c = c.
Proof.
  unfold capital, JS.lower. cbv zeta. intros H.
  set (n := N_of_ascii c) in *.
  destruct (N.leb_spec 65 n), (N.leb_spec n 90), (N.leb_spec 192 n),
    (N.leb_spec n 222), (N.eqb_spec n 215); cbn; try reflexivity;
    exfalso; apply H; lia.
Qed.

Lemma capital_dec (c : ascii) : capital c \/ ~ capital c.
Proof. unfold capital. cbv zeta. lia. Qed.

Lemma small_of_code (c : ascii) :
  capital c -> N_of_ascii (small_of c) = (N_of_ascii c + 32)%N.
Proof.
  unfold capital, small_of. cbv zeta. intros H.
  apply N_ascii_embedding. lia.
Qed.

Lemma small_not_capital (c : ascii) : capital c -> ~ capital (small_of c).
Proof.
  intros H Hs. unfold capital in Hs. cbv zeta in Hs.
  rewrite small_of_code in Hs by exact H.
  unfold capital in H. cbv zeta in H. lia.
Qed.

Lemma small_of_inj (c d : ascii) :
  capital c -> capital d -> small_of c = small_of d -> c = d.
Proof.
  intros Hc Hd E. apply (f_equal N_of_ascii) in E.
  rewrite !small_of_code in E by assumption.
  rewrite <- (ascii_N_embedding c), <- (ascii_N_embedding d).
  f_equal. lia.
Qed.

(** Two code units are the same letter up to case exactly when they
    lower to the same code unit. *)
Lemma same_letter_lower (c d : ascii) :
  same_letter c d <-> JS.lower c = JS.lower d.
Proof.
  split.
  - intros [x|x Hx|x Hx]; [reflexivity | |];
      rewrite (lower_capital x Hx),
        (lower_other _ (small_not_capital x Hx)); reflexivity.
  - intros E.
    destruct (capital_dec c) as [Hc|Hc], (capital_dec d) as [Hd|Hd].
    + rewrite !lower_capital in E by assumption.
      rewrite (small_of_inj c d Hc Hd E). constructor.
    + rewrite (lower_capital c Hc), (lower_other d Hd) in E.
      rewrite <- E. now constructor.
    + rewrite (lower_other c Hc), (lower_capital d Hd) in E.
      rewrite E. now constructor.
    + rewrite (lower_other c Hc), (lower_other d Hd) in E.
      rewrite E. constructor.
Qed.

Lemma same_text_lower (s t : string) :
  same_text s t <-> JS.toLowerCase s = JS.toLowerCase t.
Proof.
  split.
  - induction 1 as [|c d s t Hcd Hst IH]; [reflexivity|].
    cbn. apply same_letter_lower in Hcd. now rewrite Hcd, IH.
  - revert t. induction s as [|c s IH]; intros [|d t] E;
      try discriminate; [constructor|].
    cbn in E. injection E as Hcd Hst.
    constructor; [now apply same_letter_lower | now apply IH].
Qed.

(** The test of the search is the occurrence of the term, case
    ignored. *)
Lemma includes_lower_iff (q s : string) :
  JS.includes (JS.toLowerCase s) (JS.toLowerCase q) = true
  <-> occurs_ci q s.
Proof.
  rewrite includes_spec. unfold occurs_ci. split.
  - intros (pre & post & H).
    apply toLowerCase_split in H. destruct H as (pre' & r & -> & _ & Hr).
    apply toLowerCase_split in Hr. destruct Hr as (m & post' & -> & Hm & _).
    exists pre', m, post'. split; [reflexivity|].
    now apply same_text_lower.
  - intros (pre & m & post & -> & Hm). apply same_text_lower in Hm.
    exists (JS.toLowerCase pre), (JS.toLowerCase post).
    now rewrite !toLowerCase_app, Hm.
Qed.
End StringFacts.

Section NumberFacts.

(** Evaluates the digit [JS.digits] is reading. *)
Ltac read_digit :=
  match goal with
  | |- context [JS.digit_value ?c] =>
      let v := eval vm_compute in (JS.digit_value c) in
      change (JS.digit_value c) with v; cbv beta iota;
      match goal with
      | |- context [?k <? 10] =>
          change (k <? 10) with true; cbv beta iota
      end
  end.

(** Reading the decimal digits of [u] after the digits read so far. *)
Lemma digits_uint_acc (u : Decimal.uint) (acc : positive) :
  JS.digits 10 (NilEmpty.string_of_uint u) (Some (Z.pos acc))
  = Some (Z.pos (Pos.of_uint_acc u acc)).
Proof.
  revert acc.
  induction u as [|u IH|u IH|u IH|u IH|u IH|u IH|u IH|u IH|u IH|u IH];
    intros acc; [reflexivity|..];
    cbn [NilEmpty.string_of_uint JS.digits Pos.of_uint_acc];
    read_digit;
    match goal with
    | |- JS.digits 10 _ (Some ?a) = Some (Z.pos (Pos.of_uint_acc _ ?b)) =>
        replace a with (Z.pos b) by lia
    end; apply IH.
Qed.

Lemma digits_uint (u : Decimal.uint) :
  JS.digits 10 (NilEmpty.string_of_uint u) (Some 0)
  = Some (Z.of_N (Pos.of_uint u)).
Proof.
  induction u as [|u IH|u IH|u IH|u IH|u IH|u IH|u IH|u IH|u IH|u IH];
    [reflexivity | exact IH | ..];
    cbn [NilEmpty.string_of_uint JS.digits Pos.of_uint];
    read_digit; apply digits_uint_acc.
Qed.

Lemma digits_uint_start (u : Decimal.uint) :
  u <> Decimal.Nil ->
  JS.digits 10 (NilEmpty.string_of_uint u) None
  = Some (Z.of_N (Pos.of_uint u)).
Proof.
  intros Hu. rewrite <- digits_uint.
  destruct u; [congruence | reflexivity..].
Qed.

(** A decimal numeral has no white space, sign or radix prefix in
    front. *)
Lemma parseInt_numeral (u : Decimal.uint) :
  u <> Decimal.Nil ->
  JS.parseInt (NilEmpty.string_of_uint u)
  = Some (Z.of_N (Pos.of_uint u))
  /\ JS.parseInt (String "-" (NilEmpty.string_of_uint u))
     = Some (- Z.of_N (Pos.of_uint u)).
Proof.
  intros Hu.
  assert (JS.parseInt (NilEmpty.string_of_uint u)
          = match JS.digits 10 (NilEmpty.string_of_uint u) None with
            | Some v => Some (1 * v)
            | None => None
            end
          /\ JS.parseInt (String "-" (NilEmpty.string_of_uint u))
             = match JS.digits 10 (NilEmpty.string_of_uint u) None with
               | Some v => Some (-1 * v)
               | None => None
               end) as [H1 H2].
  { destruct u as [|u|u|u|u|u|u|u|u|u|u]; [congruence|..];
      try (split; reflexivity).
    destruct u; split; reflexivity. }
  rewrite H1, H2, digits_uint_start by exact Hu.
  split; f_equal; lia.
Qed.

(** Reading a number back from its decimal writing. *)
Lemma parseInt_toString (n : Z) : JS.parseInt (JS.toString n) = Some n.
Proof.
  unfold JS.toString. destruct n as [|p|p]; [reflexivity|..];
    cbn [Z.to_int NilZero.string_of_int];
    pose proof (DecimalPos.Unsigned.to_uint_nonnil p) as Hnil;
    pose proof (DecimalPos.Unsigned.of_to p) as Hof;
    destruct (parseInt_numeral _ Hnil) as [Hpos Hneg].
  - unfold NilZero.string_of_uint.
    destruct (Pos.to_uint p) eqn:E; [congruence|..];
      rewrite Hpos, Hof; reflexivity.
  - unfold NilZero.string_of_uint.
    destruct (Pos.to_uint p) eqn:E; [congruence|..];
      rewrite Hneg, Hof; reflexivity.
Qed.

Lemma ceil_div_6 (n : nat) :
  JS.ceil_div (Z.of_nat n) 6 = Z.of_nat ((n + 5) / 6).
Proof.
  unfold JS.ceil_div. rewrite Nat2Z.inj_div, Nat2Z.inj_add.
  change (Z.of_nat 5) with 5. change (Z.of_nat 6) with 6.
  pose proof (Z.div_mod (- Z.of_nat n) 6 ltac:(lia)).
  pose proof (Z.mod_pos_bound (- Z.of_nat n) 6 ltac:(lia)).
  pose proof (Z.div_mod (Z.of_nat n + 5) 6 ltac:(lia)).
  pose proof (Z.mod_pos_bound (Z.of_nat n + 5) 6 ltac:(lia)).
  lia.
Qed.
End NumberFacts.

(** ** The store *)

Lemma readPosts_holds (d : Document) :
  readPosts (Holds d) = (Holds d, inr d).
Proof. reflexivity. Qed.

Lemma readPosts_absent :
  readPosts Absent = (Holds {| posts := [] |}, inr {| posts := [] |}).
Proof. reflexivity. Qed.

Lemma readPosts_unreadable :
  readPosts Unreadable = (Unreadable, inl OtherError).
Proof. reflexivity. Qed.

(** A load leaves the file as it is, or creates the empty document
    when the file is absent. *)
Lemma readPosts_file (f : File) :
  fst (readPosts f) = f
  \/ (f = Absent /\ fst (readPosts f) = Holds {| posts := [] |}).
Proof. destruct f; cbn; auto. Qed.

(** ** Creation *)

Lemma fold_max_ge (xs : list Z) (x : Z) :
  x <= fold_left Z.max xs x
  /\ (forall y, In y xs -> y <= fold_left Z.max xs x).
Proof.
  revert x. induction xs as [|z xs IH]; intros x; cbn.
  - split; [lia | contradiction].
  - destruct (IH (Z.max x z)) as [H1 H2]. split; [lia|].
    intros y [<-|Hy]; [lia | now apply H2].
Qed.

Lemma fold_max_in (xs : list Z) (x : Z) :
  In (fold_left Z.max xs x) (x :: xs).
Proof.
  revert x. induction xs as [|z xs IH]; intros x; cbn.
  - now left.
  - destruct (IH (Z.max x z)) as [H|H].
    + destruct (Z.max_spec x z) as [[_ E]|[_ E]];
        [right; left | left]; congruence.
    + now right; right.
Qed.

(** The identifier of a new post is 1 in an empty collection, and one
    more than the greatest identifier otherwise. *)
Lemma next_id_spec (l : list Post) :
  (l = [] -> next_id l = 1)
  /\ (l <> [] -> exists m, greatest_id m l /\ next_id l = m + 1).
Proof.
  split; [intros ->; reflexivity|].
  intros Hne. unfold next_id.
  destruct (map id l) as [|x xs] eqn:E.
  - destruct l; [congruence | discriminate].
  - exists (fold_left Z.max xs x). split; [|reflexivity].
    split.
    + pose proof (fold_max_in xs x) as Hin. rewrite <- E in Hin.
      apply in_map_iff in Hin. destruct Hin as (p & Hp & Hin).
      now exists p.
    + intros p Hp. apply (in_map id) in Hp. rewrite E in Hp.
      destruct (fold_max_ge xs x) as [H1 H2].
      destruct Hp as [<-|Hp]; [exact H1 | now apply H2].
Qed.

(** The invariant of the collection: creation keeps the identifiers
    distinct. *)
Lemma next_id_fresh (l : list Post) : ~ In (next_id l) (map id l).
Proof.
  intros Hin. apply in_map_iff in Hin. destruct Hin as (p & Hp & Hin).
  destruct (next_id_spec l) as [_ Hmax].
  destruct Hmax as (m & [_ Hle] & Hm);
    [intros ->; contradiction|].
  specialize (Hle p Hin). lia.
Qed.

Lemma newPost_keeps_ids_distinct (l : list Post)
  (t c a : string) (e : option string) (now : string) :
  NoDup (map id l) -> NoDup (map id (l ++ [newPost l t c a e now])).
Proof.
  intros Hnd. rewrite map_app. cbn [map id newPost].
  eapply Permutation_NoDup; [apply Permutation_cons_append|].
  constructor; [apply next_id_fresh | exact Hnd].
Qed.

Lemma post_add_post_valid (body : Body) (now : string) (d : Document) :
  missing (b_title body) = false ->
  missing (b_content body) = false ->
  missing (b_author body) = false ->
  let post :=
    newPost (posts d) (field (b_title body)) (field (b_content body))
      (field (b_author body)) (b_excerpt body) now in
  post_add_post body now (Holds d)
  = (Holds {| posts := posts d ++ [post] |},
     inr (Redirect ("/post?id=" ++ JS.toString (id post))%string)).
Proof.
  intros Ht Hc Ha. unfold post_add_post, guarded, try_catch.
  rewrite Ht, Hc, Ha. reflexivity.
Qed.

(** C1: a valid submission (title, content and author present and not
    empty) adds exactly one post to the stored collection, at its end;
    the identifier of the new post is 1 when the collection was empty
    (or the file absent), and the greatest identifier of the collection
    plus 1 otherwise. *)
Theorem create_appends (body : Body) (now : string) (l : list Post) :
  missing (b_title body) = false ->
  missing (b_content body) = false ->
  missing (b_author body) = false ->
  let created l :=
    newPost l (field (b_title body)) (field (b_content body))
      (field (b_author body)) (b_excerpt body) now in
  post_add_post body now (Holds {| posts := l |})
  = (Holds {| posts := l ++ [created l] |},
     inr (Redirect ("/post?id=" ++ JS.toString (id (created l)))%string))
  /\ List.length (l ++ [created l]) = S (List.length l)
  /\ (l = [] -> id (created l) = 1)
  /\ (l <> [] -> exists m, greatest_id m l /\ id (created l) = m + 1)
  /\ post_add_post body now Absent
     = (Holds {| posts := [created []] |}, inr (Redirect "/post?id=1")).
Proof.
  intros Ht Hc Ha created. repeat split.
  - apply (post_add_post_valid body now {| posts := l |}); assumption.
  - rewrite length_app. cbn. lia.
  - apply next_id_spec.
  - apply next_id_spec.
  - unfold post_add_post, guarded, try_catch.
    rewrite Ht, Hc, Ha. reflexivity.
Qed.

(** C7: a submission whose title, content or author is missing or
    empty is answered with the validation error (status 400), and the
    file is left as it was. *)
Theorem create_rejects (body : Body) (now : string) (f : File) :
  missing (b_title body) = true \/ missing (b_content body) = true
  \/ missing (b_author body) = true ->
  post_add_post body now f
  = (f, inr (Render 400 (error_view "All fields are required"))).
Proof.
  intros H. unfold post_add_post, guarded, try_catch.
  assert (missing (b_title body) || missing (b_content body)
          || missing (b_author body) = true) as ->.
  { destruct H as [H|[H|H]]; rewrite H;
      [reflexivity | now rewrite orb_true_r | now rewrite orb_true_r]. }
  reflexivity.
Qed.

Lemma substring0_prefix (n : nat) (s : string) :
  (exists rest, s = JS.substring0 n s ++ rest)%string
  /\ String.length (JS.substring0 n s) = Nat.min n (String.length s).
Proof.
  unfold JS.substring0. revert s.
  induction n as [|n IH]; intros s.
  - destruct s; cbn; split; eauto.
  - destruct s as [|c s]; cbn [String.substring String.length].
    + split; [now exists ""%string | reflexivity].
    + destruct (IH s) as [[rest Hrest] Hlen]. split.
      * exists rest. cbn. now rewrite <- Hrest.
      * cbn. now rewrite Hlen.
Qed.

(** C8, as the code has it: the excerpt stored for a valid submission
    is the plain-text sanitization of the excerpt supplied when one is
    supplied and not empty, and otherwise (no excerpt, or an empty one)
    of the first 150 code units of the content followed by three full
    stops. *)
Theorem create_excerpt (body : Body) (now : string) (l : list Post) :
  missing (b_title body) = false ->
  missing (b_content body) = false ->
  missing (b_author body) = false ->
  let c := field (b_content body) in
  let start := JS.substring0 150 c in
  let text :=
    match b_excerpt body with
    | Some (String a e) => String a e
    | Some EmptyString | None => (start ++ "...")%string
    end in
  exists post,
    fst (post_add_post body now (Holds {| posts := l |}))
    = Holds {| posts := l ++ [post] |}
    /\ excerpt post = sanitizeHtml text None
    /\ (exists rest, c = (start ++ rest)%string)
    /\ String.length start = Nat.min 150 (String.length c).
Proof.
  intros Ht Hc Ha c start text.
  eexists. split; [|split].
  - rewrite (post_add_post_valid body now {| posts := l |}) by assumption.
    reflexivity.
  - cbn [excerpt newPost]. f_equal. subst text start c.
    destruct (b_excerpt body) as [[|a e]|]; reflexivity.
  - apply substring0_prefix.
Qed.

(** ** The single post, when the identifier is not a number *)

Lemma has_id_nan (p : Post) : has_id None p = false.
Proof. reflexivity. Qed.

Lemma find_nan (l : list Post) : find (has_id None) l = None.
Proof. induction l as [|p l IH]; [reflexivity | exact IH]. Qed.

(** C9: a request for a single post whose identifier is missing, or is
    not read as a number, is answered with the not-found page (status
    404) on every collection, and on the absent file: no post carries
    the identifier NaN. *)
Theorem post_nan_not_found (q : option string) :
  q = None \/ JS.parseInt_param q = None ->
  (forall p, has_id (JS.parseInt_param q) p = false)
  /\ (forall l,
        get_post q (Holds {| posts := l |})
        = (Holds {| posts := l |},
           inr (Render 404 (error_view "Post not found"))))
  /\ get_post q Absent
     = (Holds {| posts := [] |},
        inr (Render 404 (error_view "Post not found"))).
Proof.
  intros H.
  assert (JS.parseInt_param q = None) as Hnan
    by (destruct H as [->|H]; [reflexivity | exact H]).
  unfold get_post, guarded, try_catch, bind. rewrite Hnan.
  repeat split.
  intros l. rewrite readPosts_holds. cbn [posts].
  now rewrite find_nan.
Qed.

(** ** What the handlers do to the file *)

Lemma get_post_file (q : option string) (f : File) :
  fst (get_post q f) = fst (readPosts f).
Proof.
  unfold get_post, guarded, try_catch, bind.
  destruct f as [|d|]; cbn; [reflexivity| |reflexivity].
  now destruct (find _ (posts d)).
Qed.

Lemma get_search_file (q : option string) (f : File) :
  fst (get_search q f) = f \/ fst (get_search q f) = fst (readPosts f).
Proof.
  unfold get_search, guarded, try_catch, bind.
  destruct (JS.truthy (JS.toLowerCase (JS.or_else q ""))); cbn;
    [right | now left].
  destruct f; reflexivity.
Qed.

(** C10: the operations that only read (home page, listing, single
    post, search) leave the file as it is, except that the first load
    of an absent file creates the empty document; whatever the request,
    the file changes only by that first load or by the creation of a
    post, which appends the new post to the collection loaded. *)
Theorem store_frame (r : Request) (f : File) :
  (read_only r = true ->
   fst (handle r f) = f
   \/ (f = Absent /\ fst (handle r f) = Holds {| posts := [] |}))
  /\ (fst (handle r f) = f
      \/ (f = Absent /\ fst (handle r f) = Holds {| posts := [] |})
      \/ (exists body now l,
            r = POST_add_post body now
            /\ (f = Holds {| posts := l |} \/ (f = Absent /\ l = []))
            /\ fst (handle r f)
               = Holds {| posts :=
                            l ++ [newPost l (field (b_title body))
                                    (field (b_content body))
                                    (field (b_author body))
                                    (b_excerpt body) now] |})).
Proof.
  assert (forall g : File,
             g = fst (readPosts f) ->
             g = f \/ (f = Absent /\ g = Holds {| posts := [] |}))
    as Hread.
  { intros g ->. apply readPosts_file. }
  destruct r as [|page|n| |c|body now|q|]; cbn [handle read_only].
  - assert (fst (get_home f) = fst (readPosts f)) as E
      by (destruct f; reflexivity).
    split; [intros _|]; [|apply or_assoc; left]; now apply Hread.
  - assert (fst (get_posts page f) = fst (readPosts f)) as E
      by (destruct f; reflexivity).
    split; [intros _|]; [|apply or_assoc; left]; now apply Hread.
  - pose proof (get_post_file n f) as E.
    split; [intros _|]; [|apply or_assoc; left]; now apply Hread.
  - split; [discriminate | now left].
  - split; [discriminate | left]. now destruct c.
  - split; [discriminate|].
    destruct (missing (b_title body) || missing (b_content body)
              || missing (b_author body)) eqn:Hm.
    + left. unfold post_add_post, guarded, try_catch. now rewrite Hm.
    + apply orb_false_iff in Hm. destruct Hm as [Hm Ha].
      apply orb_false_iff in Hm. destruct Hm as [Ht Hc].
      destruct f as [|[l]|].
      * right. right. exists body, now, []. repeat split; auto.
        unfold post_add_post, guarded, try_catch.
        rewrite Ht, Hc, Ha. reflexivity.
      * right. right. exists body, now, l. repeat split; auto.
        now rewrite post_add_post_valid.
      * left. unfold post_add_post, guarded, try_catch.
        rewrite Ht, Hc, Ha. reflexivity.
  - destruct (get_search_file q f) as [E|E].
    + split; [intros _|]; now left.
    + split; [intros _|]; [|apply or_assoc; left]; now apply Hread.
  - split; [discriminate | now left].
Qed.

(** ** The listing *)

(** A page parameter that is not read as a number, or is read as 0,
    asks for page 1. *)
Lemma page_default (q : option string) (f : File) :
  JS.parseInt_param q = None \/ JS.parseInt_param q = Some 0 ->
  page_of q = 1 /\ get_posts q f = get_posts (Some "1"%string) f.
Proof.
  intros H.
  assert (page_of q = 1) as E
    by (unfold page_of; destruct H as [-> | ->]; reflexivity).
  split; [exact E|]. unfold get_posts. now rewrite E.
Qed.

Lemma sortedPosts_perm (l : list Post) : Permutation (sortedPosts l) l.
Proof. apply sort_perm. Qed.

Lemma sortedPosts_sorted (l : list Post) :
  date_descending (sortedPosts l).
Proof.
  apply (sort_sorted (fun p => getTime (createdAt p))). reflexivity.
Qed.

(** The request for page [p], written in decimal. *)
Lemma get_posts_page (p : Z) (l : list Post) :
  1 <= p ->
  get_posts (Some (JS.toString p)) (Holds {| posts := l |})
  = (Holds {| posts := l |},
     inr (Render 200
            (posts_view
               (firstn 6 (skipn (6 * (Z.to_nat p - 1)) (sortedPosts l)))
               p (JS.ceil_div (Z.of_nat (List.length l)) 6)))).
Proof.
  intros Hp. unfold get_posts, page_of, JS.parseInt_param.
  rewrite parseInt_toString.
  destruct (Z.eqb_spec p 0) as [?|_]; [lia|].
  unfold guarded, try_catch, bind. rewrite readPosts_holds.
  cbn [posts ret].
  rewrite (Permutation_length (sortedPosts_perm l)).
  replace ((p - 1) * 6) with (Z.of_nat (6 * (Z.to_nat p - 1))) by lia.
  pose proof (slice_segment (sortedPosts l) (6 * (Z.to_nat p - 1)) 6)
    as E.
  change (Z.of_nat 6) with 6 in E. now rewrite E.
Qed.

(** C6: the pages 1, ..., totalPages of the listing (six posts a page,
    totalPages = ceil(count / 6)) are consecutive segments of the
    collection sorted newest first: page [p] holds the positions
    6(p-1), ..., 6p-1; laid end to end in the order of the pages they
    give back the sorted collection; and no post of a collection
    without repeated records is on two pages. *)
Theorem pages_partition (l : list Post) :
  let f := Holds {| posts := l |} in
  let sorted := sortedPosts l in
  let total := JS.ceil_div (Z.of_nat (List.length l)) 6 in
  let page p := listed (get_posts (Some (JS.toString p)) f) in
  (forall p, 1 <= p <= total ->
     get_posts (Some (JS.toString p)) f
     = (f, inr (Render 200 (posts_view (page p) p total)))
     /\ page p = firstn 6 (skipn (6 * (Z.to_nat p - 1)) sorted))
  /\ List.concat (map page (page_numbers total)) = sorted
  /\ (NoDup l ->
      forall p q x, 1 <= p -> 1 <= q -> p <> q ->
                    In x (page p) -> In x (page q) -> False)
  /\ date_descending sorted
  /\ Permutation sorted l.
Proof.
  intros f sorted total page.
  assert (forall p, 1 <= p ->
            page p = firstn 6 (skipn (6 * (Z.to_nat p - 1)) sorted))
    as Hpage.
  { intros p Hp. unfold page, f. now rewrite get_posts_page. }
  split; [|split; [|split; [|split]]].
  - intros p [Hp _]. split; [|now apply Hpage].
    rewrite Hpage by exact Hp. now apply get_posts_page.
  - unfold page_numbers, total. rewrite ceil_div_6, Nat2Z.id.
    rewrite map_map, <- seq_shift, map_map.
    etransitivity;
      [|apply (segments_concat 6 ((List.length l + 5) / 6) sorted)].
    + f_equal. apply map_ext. intros i.
      rewrite Hpage by lia. do 2 f_equal. lia.
    + unfold sorted.
      rewrite (Permutation_length (sortedPosts_perm l)).
      pose proof (Nat.div_mod_eq (List.length l + 5) 6).
      pose proof (Nat.mod_upper_bound (List.length l + 5) 6). lia.
  - intros Hnd p q x Hp Hq Hpq Hxp Hxq.
    rewrite Hpage in Hxp, Hxq by assumption.
    apply in_segment in Hxp, Hxq.
    destruct Hxp as (i & Hi & Hxi), Hxq as (j & Hj & Hxj).
    assert (NoDup sorted) as Hnds.
    { eapply Permutation_NoDup; [|exact Hnd].
      symmetry. apply sortedPosts_perm. }
    rewrite NoDup_nth_error in Hnds.
    assert (i = j) as Hij.
    { apply Hnds; [|congruence].
      apply nth_error_Some. congruence. }
    lia.
  - apply sortedPosts_sorted.
  - apply sortedPosts_perm.
Qed.

(** ** The single post and its neighbours *)

(** C5: for an identifier [n] present in the collection, the page of
    the post shows a post with that identifier, and with [k] the first
    position of the order newest-first that holds the identifier,
    [prevPost] is the post at position k+1 (none when [k] is the last
    position) and [nextPost] the post at position k-1 (none when [k] is
    0); when identifiers are unique, the post shown is the one at
    position [k]. *)
Theorem post_neighbours (q : option string) (n : Z) (l : list Post) :
  JS.parseInt_param q = Some n ->
  In n (map id l) ->
  let sorted := sortedPosts l in
  exists post k,
    get_post q (Holds {| posts := l |})
    = (Holds {| posts := l |},
       inr (Render 200
              (post_view post (processPostContent (content post))
                 (nth_error sorted (S k))
                 (match k with
                  | O => None
                  | S j => nth_error sorted j
                  end))))
    /\ In post l /\ id post = n
    /\ (exists x, nth_error sorted k = Some x /\ id x = n)
    /\ (forall j y, (j < k)%nat -> nth_error sorted j = Some y ->
                    id y <> n)
    /\ (NoDup (map id l) -> nth_error sorted k = Some post)
    /\ date_descending sorted
    /\ Permutation sorted l.
Proof.
  intros Hq Hin sorted.
  destruct (find (has_id (Some n)) l) as [post|] eqn:Hfind.
  - pose proof (find_some _ _ Hfind) as [Hpost Hid].
    cbn in Hid. apply Z.eqb_eq in Hid.
    assert (existsb (has_id (Some n)) sorted = true) as Hex.
    { rewrite (existsb_perm _ _ _ (sortedPosts_perm l)).
      eapply find_existsb. exact Hfind. }
    destruct (findIndex_first _ _ Hex)
      as (k & x & Hk & Hx & Hfx & Hmin).
    cbn in Hfx. apply Z.eqb_eq in Hfx.
    exists post, k. repeat split.
    + unfold get_post, guarded, try_catch, bind.
      rewrite Hq, readPosts_holds. cbn [posts]. rewrite Hfind.
      fold sorted. rewrite Hk.
      now rewrite at_index_after, at_index_before.
    + exact Hpost.
    + exact Hid.
    + now exists x.
    + intros j y Hj Hy E. specialize (Hmin j y Hj Hy).
      cbn in Hmin. apply Z.eqb_neq in Hmin. contradiction.
    + intros Hnd. rewrite Hx. f_equal.
      apply (NoDup_map_eq id l); [exact Hnd | | exact Hpost | congruence].
      apply (Permutation_in _ (sortedPosts_perm l)).
      eapply nth_error_In. exact Hx.
    + apply sortedPosts_sorted.
    + apply sortedPosts_perm.
  - exfalso. apply in_map_iff in Hin. destruct Hin as (p & Hp & Hin).
    pose proof (find_none _ _ Hfind p Hin) as Hn.
    cbn in Hn. apply Z.eqb_neq in Hn. contradiction.
Qed.

(** ** Search *)

Lemma matches_found (q : string) (p : Post) :
  matches (JS.toLowerCase q) p = true <-> found_in q p.
Proof.
  unfold matches, found_in.
  rewrite !orb_true_iff, !includes_lower_iff. apply or_assoc.
Qed.

Lemma get_search_term (q : string) (l : list Post) :
  q <> ""%string ->
  get_search (Some q) (Holds {| posts := l |})
  = (Holds {| posts := l |},
     inr (Render 200
            (search_view (Some q)
               (JS.sort byDateDesc
                  (filter (matches (JS.toLowerCase q)) l))))).
Proof.
  intros Hq. unfold get_search, guarded, try_catch, bind.
  assert (JS.or_else (Some q) "" = q) as ->
    by (destruct q; [congruence | reflexivity]).
  assert (JS.truthy (JS.toLowerCase q) = true) as ->
    by (destruct q; [congruence | reflexivity]).
  reflexivity.
Qed.

(** ** The search over 16-bit code units, on the code units 0..255 *)












(** ** Further properties of the handlers *)

Lemma sorted_app_le {A : Type} (R : A -> A -> Prop) (l1 l2 : list A) :
  StronglySorted R (l1 ++ l2) ->
  forall a b, In a l1 -> In b l2 -> R a b.
Proof.
  induction l1 as [|x l1 IH]; cbn; [contradiction|].
  intros Hs a b [<-|Ha] Hb.
  - apply StronglySorted_inv in Hs. destruct Hs as [_ Hall].
    rewrite Forall_forall in Hall. apply Hall, in_or_app. now right.
  - apply StronglySorted_inv in Hs. destruct Hs as [Hs _].
    now apply IH.
Qed.

Lemma find_all_false {A : Type} (f : A -> bool) (l : list A) :
  (forall x, In x l -> f x = false) -> find f l = None.
Proof.
  induction l as [|x l IH]; [reflexivity|].
  intros H. cbn. rewrite (H x) by now left.
  apply IH. intros y Hy. apply H. now right.
Qed.

Lemma get_home_holds (l : list Post) :
  get_home (Holds {| posts := l |})
  = (Holds {| posts := l |},
     inr (Render 200 (home (firstn 3 (sortedPosts l))))).
Proof.
  unfold get_home, guarded, try_catch, bind. rewrite readPosts_holds.
  cbn [posts ret].
  pose proof (slice_segment (sortedPosts l) 0 3) as E.
  change (JS.slice (sortedPosts l) 0 3 = firstn 3 (sortedPosts l)) in E.
  now rewrite E.
Qed.

(** The page [page_of] selects, when it is a page from 1 on. *)
Lemma page_of_number (q : option string) (p : Z) :
  JS.parseInt_param q = Some p -> p <> 0 -> page_of q = p.
Proof.
  intros Hq Hp. unfold page_of. rewrite Hq.
  now destruct (Z.eqb_spec p 0).
Qed.

Lemma get_posts_from (q : option string) (p : Z) (l : list Post) :
  page_of q = p -> 1 <= p ->
  get_posts q (Holds {| posts := l |})
  = (Holds {| posts := l |},
     inr (Render 200
            (posts_view
               (firstn 6 (skipn (6 * (Z.to_nat p - 1)) (sortedPosts l)))
               p (JS.ceil_div (Z.of_nat (List.length l)) 6)))).
Proof.
  intros Hq Hp. unfold get_posts. rewrite Hq.
  unfold guarded, try_catch, bind. rewrite readPosts_holds.
  cbn [posts ret].
  rewrite (Permutation_length (sortedPosts_perm l)).
  replace ((p - 1) * 6) with (Z.of_nat (6 * (Z.to_nat p - 1))) by lia.
  pose proof (slice_segment (sortedPosts l) (6 * (Z.to_nat p - 1)) 6)
    as E.
  change (Z.of_nat 6) with 6 in E. now rewrite E.
Qed.

(** X1: the home page features the first three posts of the order newest
    first (all of them when there are fewer): they are the first three
    posts of the first page of the listing, and each is at least as
    recent as every post that is not featured. *)
Theorem home_features_newest (l : list Post) :
  let f := Holds {| posts := l |} in
  get_home f = (f, inr (Render 200 (home (firstn 3 (sortedPosts l)))))
  /\ List.length (featured (get_home f)) = Nat.min 3 (List.length l)
  /\ featured (get_home f) = firstn 3 (listed (get_posts None f))
  /\ (forall a b,
        In a (featured (get_home f)) ->
        In b (skipn 3 (sortedPosts l)) ->
        getTime (createdAt b) <= getTime (createdAt a)).
Proof.
  intros f. unfold f. rewrite get_home_holds. cbn [featured].
  split; [reflexivity | split; [|split]].
  - rewrite length_firstn.
    now rewrite (Permutation_length (sortedPosts_perm l)).
  - rewrite (get_posts_from None 1 l) by (reflexivity || lia).
    cbn [listed]. change (6 * (Z.to_nat 1 - 1))%nat with 0%nat.
    cbn [skipn]. now rewrite firstn_firstn.
  - intros a b Ha Hb.
    pose proof (sortedPosts_sorted l) as Hs. unfold date_descending in Hs.
    rewrite <- (firstn_skipn 3 (sortedPosts l)) in Hs.
    exact (sorted_app_le _ _ _ Hs a b Ha Hb).
Qed.

(** X2: a page past the last one is answered with status 200 and an
    empty list of posts, under the page number asked for; the page
    number is small enough for the numbers the handler computes from it
    (the offset and the end of the slice, at most 6 times the page) to
    be integers the engine holds exactly, that is at most 2^53. *)
Theorem page_past_end_empty (q : option string) (p : Z) (l : list Post) :
  JS.parseInt_param q = Some p ->
  6 * p <= 2 ^ 53 ->
  JS.ceil_div (Z.of_nat (List.length l)) 6 < p ->
  get_posts q (Holds {| posts := l |})
  = (Holds {| posts := l |},
     inr (Render 200
            (posts_view [] p (JS.ceil_div (Z.of_nat (List.length l)) 6)))).
Proof.
  intros Hq _ Hp. rewrite ceil_div_6 in Hp.
  rewrite (get_posts_from q p l)
    by (lia || (apply page_of_number; [exact Hq | lia])).
  rewrite skipn_all2; [now rewrite firstn_nil|].
  rewrite (Permutation_length (sortedPosts_perm l)).
  pose proof (Nat.div_mod_eq (List.length l + 5) 6).
  pose proof (Nat.mod_upper_bound (List.length l + 5) 6). lia.
Qed.

(** X3: every page before the last shows six posts, and the last page
    shows the posts that are left, at least one and at most six. *)
Theorem page_sizes (l : list Post) (p : Z) :
  let total := JS.ceil_div (Z.of_nat (List.length l)) 6 in
  let shown :=
    Z.of_nat
      (List.length
         (listed (get_posts (Some (JS.toString p))
                    (Holds {| posts := l |})))) in
  1 <= p <= total ->
  (p < total -> shown = 6)
  /\ (p = total -> shown = Z.of_nat (List.length l) - 6 * (total - 1))
  /\ 1 <= shown <= 6.
Proof.
  intros total shown Hp. unfold shown, total in *.
  rewrite ceil_div_6 in *.
  rewrite (get_posts_from (Some (JS.toString p)) p l)
    by (lia || (apply page_of_number; [apply parseInt_toString | lia])).
  cbn [listed]. rewrite length_firstn, length_skipn.
  rewrite (Permutation_length (sortedPosts_perm l)).
  pose proof (Nat.div_mod_eq (List.length l + 5) 6).
  pose proof (Nat.mod_upper_bound (List.length l + 5) 6).
  repeat split; intros; lia.
Qed.

(** X4: a numeric identifier that no post of the collection carries is
    answered with the not-found page (status 404); the file is left as
    it is. *)
Theorem unknown_id_not_found (q : option string) (n : Z) (l : list Post) :
  JS.parseInt_param q = Some n ->
  ~ In n (map id l) ->
  get_post q (Holds {| posts := l |})
  = (Holds {| posts := l |},
     inr (Render 404 (error_view "Post not found"))).
Proof.
  intros Hq Hn. unfold get_post, guarded, try_catch, bind.
  rewrite Hq, readPosts_holds. cbn [posts].
  rewrite find_all_false; [reflexivity|].
  intros x Hx. cbn. apply Z.eqb_neq. intros E. apply Hn.
  rewrite <- E. now apply in_map.
Qed.

(** X5: when the file cannot be read (for a reason other than its
    absence), every handler that loads the collection answers with
    status 500 and its own message, and the file is left as it is; no
    post is created. *)
Theorem unreadable_is_500 (page n : option string) (body : Body)
  (now q : string) :
  get_home Unreadable
  = (Unreadable, inr (Render 500 (error_view "Error loading homepage")))
  /\ get_posts page Unreadable
     = (Unreadable, inr (Render 500 (error_view "Error loading posts")))
  /\ get_post n Unreadable
     = (Unreadable, inr (Render 500 (error_view "Error loading post")))
  /\ (missing (b_title body) = false ->
      missing (b_content body) = false ->
      missing (b_author body) = false ->
      post_add_post body now Unreadable
      = (Unreadable, inr (Render 500 (error_view "Error saving post"))))
  /\ (q <> ""%string ->
      get_search (Some q) Unreadable
      = (Unreadable,
         inr (Render 500 (error_view "Error performing search")))).
Proof.
  repeat split.
  - intros Ht Hc Ha. unfold post_add_post, guarded, try_catch.
    rewrite Ht, Hc, Ha. reflexivity.
  - intros Hq. unfold get_search, guarded, try_catch.
    assert (JS.truthy (JS.toLowerCase (JS.or_else (Some q) "")) = true)
      as -> by (destruct q; [congruence | reflexivity]).
    reflexivity.
Qed.

(** X6: an absent file stands for the empty collection: every request
    is answered as on a file that holds no post, and afterwards the file
    is either still absent (the request did not load the collection) or
    what that file would be. *)
Theorem absent_is_empty (r : Request) :
  let empty := Holds {| posts := [] |} in
  snd (handle r Absent) = snd (handle r empty)
  /\ (fst (handle r Absent) = Absent
      \/ fst (handle r Absent) = fst (handle r empty)).
Proof.
  destruct r as [|page|n| |c|body now|q|]; cbn [handle].
  - split; [reflexivity | now right].
  - split; [reflexivity | now right].
  - split; [reflexivity | now right].
  - split; [reflexivity | now left].
  - destruct c; split; (reflexivity || now left).
  - unfold post_add_post, guarded, try_catch.
    destruct (missing (b_title body) || missing (b_content body)
              || missing (b_author body));
      split; (reflexivity || (now left) || (now right)).
  - unfold get_search, guarded, try_catch.
    destruct (negb (JS.truthy (JS.toLowerCase (JS.or_else q ""))));
      split; (reflexivity || (now left) || (now right)).
  - split; [reflexivity | now left].
Qed.

(** X7: a request that only reads can be repeated: asked again on the
    file it left, it gets the same answer and leaves the file as it
    is. *)
Theorem reads_are_repeatable (r : Request) (f : File) :
  read_only r = true ->
  handle r (fst (handle r f)) = (fst (handle r f), snd (handle r f)).
Proof.
  destruct r as [|page|n| |c|body now|q|]; cbn [handle read_only];
    try discriminate; intros _.
  - destruct f as [|[l]|]; reflexivity.
  - destruct f as [|[l]|]; reflexivity.
  - destruct f as [|[l]|]; try reflexivity.
    unfold get_post, guarded, try_catch, bind.
    rewrite readPosts_holds. cbn [posts].
    destruct (find (has_id (JS.parseInt_param n)) l) eqn:E; cbn;
      now rewrite E.
  - unfold get_search, guarded, try_catch.
    destruct (negb (JS.truthy (JS.toLowerCase (JS.or_else q "")))).
    + reflexivity.
    + destruct f as [|[l]|]; reflexivity.
Qed.

Lemma find_last_fresh {A : Type} (f : A -> bool) (l : list A) (y : A) :
  (forall x, In x l -> f x = false) -> f y = true ->
  find f (l ++ [y]) = Some y.
Proof.
  induction l as [|x l IH]; intros Hl Hy; cbn.
  - now rewrite Hy.
  - rewrite (Hl x) by now left.
    apply IH; [|exact Hy]. intros z Hz. apply Hl. now right.
Qed.

(** X8: the redirect that answers a valid submission leads to the post
    just created: the request for the identifier of the redirect, on the
    file the creation left, shows that post (status 200), and the content
    it renders is the preview of the content submitted. *)
Theorem created_post_is_shown (body : Body) (now : string)
  (l : list Post) (f : File) :
  missing (b_title body) = false ->
  missing (b_content body) = false ->
  missing (b_author body) = false ->
  let created :=
    newPost l (field (b_title body)) (field (b_content body))
      (field (b_author body)) (b_excerpt body) now in
  let run := post_add_post body now (Holds {| posts := l |}) in
  exists html prev next,
    snd run
    = inr (Redirect ("/post?id=" ++ JS.toString (id created))%string)
    /\ get_post (Some (JS.toString (id created))) (fst run)
       = (fst run, inr (Render 200 (post_view created html prev next)))
    /\ post_preview_post (b_content body) f
       = (f, inr (Json 200 "preview" html)).
Proof.
  intros Ht Hc Ha created run.
  exists (processPostContent (field (b_content body))).
  unfold run.
  rewrite (post_add_post_valid body now {| posts := l |}) by assumption.
  cbn [fst snd posts]. fold created.
  do 2 eexists. split; [reflexivity | split].
  - unfold get_post, guarded, try_catch, bind, JS.parseInt_param.
    rewrite parseInt_toString, readPosts_holds. cbn [posts].
    rewrite (find_last_fresh _ l created).
    + reflexivity.
    + intros x Hx. cbn. apply Z.eqb_neq. intros E.
      apply (next_id_fresh l). apply in_map_iff.
      exists x. split; [exact E | exact Hx].
    + cbn. apply Z.eqb_refl.
  - destruct (b_content body) as [[|a c]|]; try discriminate.
    reflexivity.
Qed.

(** X9: creation keeps the invariants of the collection: when the
    identifiers stored are distinct and positive, so are the identifiers
    stored after a valid submission. *)
Theorem creation_keeps_invariants (body : Body) (now : string)
  (l : list Post) :
  missing (b_title body) = false ->
  missing (b_content body) = false ->
  missing (b_author body) = false ->
  NoDup (map id l) ->
  (forall p, In p l -> 1 <= id p) ->
  exists stored,
    fst (post_add_post body now (Holds {| posts := l |}))
    = Holds {| posts := stored |}
    /\ NoDup (map id stored)
    /\ (forall p, In p stored -> 1 <= id p).
Proof.
  intros Ht Hc Ha Hnd Hpos.
  rewrite (post_add_post_valid body now {| posts := l |}) by assumption.
  eexists. split; [reflexivity | split].
  - now apply newPost_keeps_ids_distinct.
  - intros p Hp. apply in_app_or in Hp.
    destruct Hp as [Hp|[<-|[]]]; [now apply Hpos|].
    cbn [id newPost posts].
    destruct l as [|x l']; [cbn; lia|].
    destruct (next_id_spec (x :: l')) as [_ Hmax].
    destruct Hmax as (m & [(y & Hy & <-) _] & ->); [discriminate|].
    specialize (Hpos y Hy). lia.
Qed.

Lemma next_id_after (l : list Post) (x : Post) :
  id x = next_id l -> next_id (l ++ [x]) = id x + 1.
Proof.
  intros Hx. unfold next_id in *. rewrite map_app. cbn [map].
  destruct (map id l) as [|y ys]; cbn [app]; [reflexivity|].
  rewrite fold_left_app. cbn [fold_left]. lia.
Qed.

(** X10: two valid submissions in a row get consecutive identifiers,
    and both posts are stored after the posts that were there, in the
    order of their submission. *)
Theorem successive_ids (body1 body2 : Body) (now1 now2 : string)
  (l : list Post) :
  missing (b_title body1) = false ->
  missing (b_content body1) = false ->
  missing (b_author body1) = false ->
  missing (b_title body2) = false ->
  missing (b_content body2) = false ->
  missing (b_author body2) = false ->
  exists first second,
    fst (post_add_post body2 now2
           (fst (post_add_post body1 now1 (Holds {| posts := l |}))))
    = Holds {| posts := l ++ [first; second] |}
    /\ id second = id first + 1.
Proof.
  intros Ht1 Hc1 Ha1 Ht2 Hc2 Ha2.
  rewrite (post_add_post_valid body1 now1 {| posts := l |}) by assumption.
  cbn [fst posts].
  rewrite (post_add_post_valid body2 now2) by assumption.
  cbn [fst posts]. do 2 eexists. split.
  - rewrite <- app_assoc. reflexivity.
  - cbn [id newPost]. now apply next_id_after.
Qed.

Lemma split_ws_aux_length (s cur : string) (inws : bool) :
  (1 <= List.length (JS.split_ws_aux s cur inws)
   <= String.length s + 1)%nat.
Proof.
  revert cur inws. induction s as [|c s IH]; intros cur inws; cbn.
  - lia.
  - destruct (JS.isWhiteSpace c); [destruct inws|].
    + specialize (IH cur true). lia.
    + specialize (IH ""%string true). cbn. lia.
    + specialize (IH (cur ++ String c "")%string false). lia.
Qed.

(** X11: the reading time of a created post is at least one minute, at
    most one minute for each 200 code units of the content begun, one
    more code unit counted; so a content of fewer than 200 code units
    reads in one minute. *)
Theorem reading_time_bounds (l : list Post) (t c a : string)
  (e : option string) (now : string) :
  let minutes := readingTime (newPost l t c a e now) in
  1 <= minutes <= JS.ceil_div (Z.of_nat (String.length c) + 1) 200
  /\ ((String.length c < 200)%nat -> minutes = 1).
Proof.
  cbn [readingTime newPost]. unfold JS.split_ws, JS.ceil_div.
  pose proof (split_ws_aux_length c "" false) as [Hlo Hhi].
  set (n := List.length (JS.split_ws_aux c "" false)) in *.
  pose proof (Z.div_mod (- Z.of_nat n) 200 ltac:(lia)).
  pose proof (Z.mod_pos_bound (- Z.of_nat n) 200 ltac:(lia)).
  pose proof (Z.div_mod (- (Z.of_nat (String.length c) + 1)) 200
                ltac:(lia)).
  pose proof (Z.mod_pos_bound (- (Z.of_nat (String.length c) + 1)) 200
                ltac:(lia)).
  repeat split; intros; lia.
Qed.

Lemma filter_all_false {A : Type} (f : A -> bool) (l : list A) :
  (forall x, In x l -> f x = false) -> filter f l = [].
Proof.
  induction l as [|x l IH]; [reflexivity|].
  intros H. cbn. rewrite (H x) by now left.
  apply IH. intros y Hy. apply H. now right.
Qed.

Lemma filter_comm {A : Type} (f g : A -> bool) (l : list A) :
  filter f (filter g l) = filter g (filter f l).
Proof.
  induction l as [|x l IH]; [reflexivity|].
  cbn. destruct (g x) eqn:Hg, (f x) eqn:Hf; cbn;
    rewrite ?Hg, ?Hf, IH; reflexivity.
Qed.

Lemma sorted_filter {A : Type} (R : A -> A -> Prop) (f : A -> bool)
  (l : list A) :
  StronglySorted R l -> StronglySorted R (filter f l).
Proof.
  induction 1 as [|x l Hs IH Hx]; cbn; [constructor|].
  destruct (f x); [|exact IH].
  constructor; [exact IH|].
  rewrite Forall_forall in *. intros y Hy.
  apply filter_In in Hy. now apply Hx.
Qed.

(** A post newer than all the others comes first in the order. *)
Lemma sortedPosts_newest (l : list Post) (x : Post) :
  (forall p, In p l -> getTime (createdAt p) < getTime (createdAt x)) ->
  sortedPosts (l ++ [x]) = x :: sortedPosts l.
Proof.
  intros Hnew. symmetry.
  apply (sort_unique (fun p => getTime (createdAt p)) byDateDesc);
    [reflexivity | |].
  - constructor; [apply sortedPosts_sorted|].
    rewrite Forall_forall. intros p Hp.
    apply (Permutation_in _ (sortedPosts_perm l)) in Hp.
    specialize (Hnew p Hp). lia.
  - intros t. rewrite filter_app. cbn [filter].
    unfold sortedPosts.
    rewrite (sort_stable (fun p => getTime (createdAt p)) byDateDesc)
      by reflexivity.
    destruct (Z.eqb_spec (getTime (createdAt x)) t) as [E|E].
    + rewrite filter_all_false; [reflexivity|].
      intros p Hp. apply Z.eqb_neq. specialize (Hnew p Hp). lia.
    + now rewrite app_nil_r.
Qed.

(** X12: a post created at a time later than the times of all the posts
    stored leads every view: it is the first post the home page features
    and the first post of page 1; its own page has no next post, and its
    previous post is the post that was the newest before. *)
Theorem newest_post_leads (body : Body) (now : string) (l : list Post) :
  missing (b_title body) = false ->
  missing (b_content body) = false ->
  missing (b_author body) = false ->
  (forall p, In p l -> getTime (createdAt p) < getTime now) ->
  let created :=
    newPost l (field (b_title body)) (field (b_content body))
      (field (b_author body)) (b_excerpt body) now in
  let f := fst (post_add_post body now (Holds {| posts := l |})) in
  featured (get_home f) = created :: firstn 2 (sortedPosts l)
  /\ listed (get_posts None f) = created :: firstn 5 (sortedPosts l)
  /\ next_of (get_post (Some (JS.toString (id created))) f) = None
  /\ prev_of (get_post (Some (JS.toString (id created))) f)
     = nth_error (sortedPosts l) 0.
Proof.
  intros Ht Hc Ha Hnew created f. unfold f.
  rewrite (post_add_post_valid body now {| posts := l |}) by assumption.
  cbn [fst posts]. fold created.
  assert (sortedPosts (l ++ [created]) = created :: sortedPosts l)
    as Hsorted by (apply sortedPosts_newest; exact Hnew).
  split; [|split].
  - rewrite get_home_holds. cbn [featured]. now rewrite Hsorted.
  - rewrite (get_posts_from None 1) by (reflexivity || lia).
    cbn [listed]. change (6 * (Z.to_nat 1 - 1))%nat with 0%nat.
    cbn [skipn]. now rewrite Hsorted.
  - unfold get_post, guarded, try_catch, bind, JS.parseInt_param.
    rewrite parseInt_toString, readPosts_holds. cbn [posts].
    rewrite (find_last_fresh _ l created).
    + rewrite Hsorted. cbn [JS.findIndex has_id].
      rewrite Z.eqb_refl.
      change 0 with (Z.of_nat 0).
      rewrite at_index_after, at_index_before.
      cbn [next_of prev_of]. split; reflexivity.
    + intros x Hx. cbn. apply Z.eqb_neq. intros E.
      apply (next_id_fresh l). apply in_map_iff.
      exists x. split; [exact E | exact Hx].
    + cbn. apply Z.eqb_refl.
Qed.

Lemma sort_filter (f : Post -> bool) (l : list Post) :
  JS.sort byDateDesc (filter f l) = filter f (sortedPosts l).
Proof.
  symmetry.
  apply (sort_unique (fun p => getTime (createdAt p)) byDateDesc);
    [reflexivity | |].
  - apply sorted_filter. apply sortedPosts_sorted.
  - intros t. rewrite filter_comm. unfold sortedPosts.
    rewrite (sort_stable (fun p => getTime (createdAt p)) byDateDesc)
      by reflexivity.
    apply filter_comm.
Qed.

(** X13: the results of a search are the posts of the full listing that
    match, in the order the listing shows them: searching and then
    sorting gives what sorting and then searching gives. *)
Theorem search_keeps_listing_order (q : string) (l : list Post) :
  q <> ""%string ->
  found (get_search (Some q) (Holds {| posts := l |}))
  = filter (matches (JS.toLowerCase q)) (sortedPosts l).
Proof.
  intros Hq. rewrite get_search_term by exact Hq.
  cbn [found]. apply sort_filter.
Qed.

Lemma string_app_assoc (a b c : string) :
  ((a ++ b) ++ c = a ++ b ++ c)%string.
Proof. induction a as [|x a IH]; cbn; [reflexivity | now rewrite IH]. Qed.

Lemma occurs_ci_trans (q1 q2 s : string) :
  occurs_ci q1 q2 -> occurs_ci q2 s -> occurs_ci q1 s.
Proof.
  intros (a & m & b & -> & Hm) (pre & m2 & post & -> & Hm2).
  apply same_text_lower in Hm, Hm2.
  rewrite !toLowerCase_app in Hm2.
  apply toLowerCase_split in Hm2.
  destruct Hm2 as (a' & r & -> & _ & Hr).
  apply toLowerCase_split in Hr.
  destruct Hr as (m' & b' & -> & Hm' & _).
  exists (pre ++ a')%string, m', (b' ++ post)%string.
  split; [|apply same_text_lower; congruence].
  now rewrite !string_app_assoc.
Qed.

(** X14: a longer term narrows the search: when a term occurs, case
    ignored, in a second term, every post found for the second term is
    found for the first. *)
Theorem search_narrows (q1 q2 : string) (l : list Post) :
  q1 <> ""%string ->
  occurs_ci q1 q2 ->
  forall p,
    In p (found (get_search (Some q2) (Holds {| posts := l |}))) ->
    In p (found (get_search (Some q1) (Holds {| posts := l |}))).
Proof.
  intros Hq1 Hocc p.
  assert (q2 <> ""%string) as Hq2.
  { destruct Hocc as (a & m & b & -> & Hm).
    destruct m as [|c m]; [inversion Hm; congruence|].
    destruct a; discriminate. }
  rewrite !get_search_term by assumption. cbn [found].
  intros Hin.
  apply (Permutation_in _ (sort_perm byDateDesc _)) in Hin.
  apply (Permutation_in _ (Permutation_sym (sort_perm byDateDesc _))).
  rewrite filter_In in *. destruct Hin as [Hl Hm]. split; [exact Hl|].
  apply matches_found. apply matches_found in Hm.
  unfold found_in in *.
  destruct Hm as [H|[H|H]]; [left | right; left | right; right];
    eapply occurs_ci_trans; eauto.
Qed.

(** The page of the post at position [k] of the order, when identifiers
    are distinct. *)
Lemma get_post_at (q : option string) (l : list Post) (k : nat)
  (p : Post) :
  NoDup (map id l) ->
  nth_error (sortedPosts l) k = Some p ->
  JS.parseInt_param q = Some (id p) ->
  get_post q (Holds {| posts := l |})
  = (Holds {| posts := l |},
     inr (Render 200
            (post_view p (processPostContent (content p))
               (nth_error (sortedPosts l) (S k))
               (match k with
                | O => None
                | S j => nth_error (sortedPosts l) j
                end)))).
Proof.
  intros Hnd Hk Hq.
  assert (In p l) as Hp.
  { apply (Permutation_in _ (sortedPosts_perm l)).
    eapply nth_error_In. exact Hk. }
  assert (forall x, In x l -> has_id (Some (id p)) x = true -> x = p)
    as Huniq.
  { intros x Hx Hid. cbn in Hid. apply Z.eqb_eq in Hid.
    now apply (NoDup_map_eq id l). }
  unfold get_post, guarded, try_catch, bind.
  rewrite Hq, readPosts_holds. cbn [posts].
  destruct (find (has_id (Some (id p))) l) as [post|] eqn:Hfind.
  - apply find_some in Hfind as Hfound. destruct Hfound as [Hin Hid].
    rewrite (Huniq post Hin Hid).
    assert (existsb (has_id (Some (id p))) (sortedPosts l) = true) as Hex.
    { rewrite (existsb_perm _ _ _ (sortedPosts_perm l)).
      eapply find_existsb. exact Hfind. }
    destruct (findIndex_first _ _ Hex) as (k' & x & Hk' & Hx & Hfx & _).
    assert (x = p) as ->.
    { apply Huniq; [|exact Hfx].
      apply (Permutation_in _ (sortedPosts_perm l)).
      eapply nth_error_In. exact Hx. }
    assert (k' = k) as ->.
    { assert (NoDup (sortedPosts l)) as Hnds.
      { eapply Permutation_NoDup;
          [symmetry; apply sortedPosts_perm|].
        eapply NoDup_map_inv. exact Hnd. }
      rewrite NoDup_nth_error in Hnds. apply Hnds; [|congruence].
      apply nth_error_Some. congruence. }
    rewrite Hk'. now rewrite at_index_after, at_index_before.
  - exfalso. pose proof (find_none _ _ Hfind p Hp) as Hn.
    cbn in Hn. now rewrite Z.eqb_refl in Hn.
Qed.

(** X15: the links between neighbours are symmetric when identifiers
    are distinct: if the page of [a] names [b] as its previous post, the
    page of [b] names [a] as its next post, and conversely. *)
Theorem navigation_is_symmetric (l : list Post) (a b : Post) :
  NoDup (map id l) ->
  In a l ->
  let page p :=
    get_post (Some (JS.toString (id p))) (Holds {| posts := l |}) in
  (prev_of (page a) = Some b -> next_of (page b) = Some a)
  /\ (next_of (page a) = Some b -> prev_of (page b) = Some a).
Proof.
  intros Hnd Ha page.
  apply (Permutation_in _ (Permutation_sym (sortedPosts_perm l))) in Ha.
  apply In_nth_error in Ha. destruct Ha as [k Hk].
  assert (forall p, JS.parseInt_param (Some (JS.toString (id p)))
                    = Some (id p)) as Hparse
    by (intros p; apply parseInt_toString).
  unfold page. rewrite (get_post_at _ l k a Hnd Hk (Hparse a)).
  cbn [prev_of next_of]. split.
  - intros Hb.
    rewrite (get_post_at _ l (S k) b Hnd Hb (Hparse b)).
    cbn [next_of]. exact Hk.
  - destruct k as [|j]; [discriminate|]. intros Hb.
    rewrite (get_post_at _ l j b Hnd Hb (Hparse b)).
    cbn [prev_of]. exact Hk.
Qed.

Lemma lookup_assign_same (o : list (string * list string)) (k : string)
  (v : list string) :
  lookup (assign o k v) k = Some v.
Proof.
  induction o as [|[k' v'] o IH]; cbn.
  - now rewrite String.eqb_refl.
  - destruct (String.eqb_spec k' k) as [->|Hne]; cbn.
    + now rewrite String.eqb_refl.
    + destruct (String.eqb_spec k' k); [contradiction | exact IH].
Qed.

Lemma lookup_assign_other (o : list (string * list string))
  (k k' : string) (v : list string) :
  k' <> k -> lookup (assign o k v) k' = lookup o k'.
Proof.
  intros Hne. induction o as [|[k0 v0] o IH]; cbn.
  - destruct (String.eqb_spec k k'); [congruence | reflexivity].
  - destruct (String.eqb_spec k0 k) as [->|Hk0]; cbn.
    + destruct (String.eqb_spec k k'); [congruence | reflexivity].
    + destruct (String.eqb_spec k0 k'); [reflexivity | exact IH].
Qed.

(** X16: the allow-list the content is sanitized with: the tags of the
    default options and img, h1, h2, h3; for the tag a exactly the
    attributes href, target, rel and for img exactly src, alt, title,
    whatever the default options give these two tags; for every other
    tag the attributes of the default options. *)
Theorem content_allow_list (c : string) :
  processPostContent c = sanitizeHtml (marked c) (Some contentOptions)
  /\ (forall t,
        In t (allowedTags contentOptions)
        <-> In t (allowedTags defaults)
            \/ In t ["img"; "h1"; "h2"; "h3"]%string)
  /\ lookup (allowedAttributes contentOptions) "a"
     = Some ["href"; "target"; "rel"]%string
  /\ lookup (allowedAttributes contentOptions) "img"
     = Some ["src"; "alt"; "title"]%string
  /\ (forall t,
        t <> "a"%string -> t <> "img"%string ->
        lookup (allowedAttributes contentOptions) t
        = lookup (allowedAttributes defaults) t).
Proof.
  split; [reflexivity | split; [|split; [|split]]].
  - intros t. cbn [allowedTags contentOptions]. apply in_app_iff.
  - cbn [allowedAttributes contentOptions].
    rewrite lookup_assign_other by discriminate.
    apply lookup_assign_same.
  - apply lookup_assign_same.
  - intros t Ha Hi. cbn [allowedAttributes contentOptions].
    now rewrite !lookup_assign_other.
Qed.

(** X17: a listing request without a page parameter, or with one that
    is not read as a number or is read as 0, shows page 1: the six
    newest posts, under the page number 1; on every file it is answered
    as the request for page 1 is. *)
Theorem page_defaults_to_first (q : option string) (l : list Post) :
  q = None \/ JS.parseInt_param q = None
  \/ JS.parseInt_param q = Some 0 ->
  get_posts q (Holds {| posts := l |})
  = (Holds {| posts := l |},
     inr (Render 200
            (posts_view (firstn 6 (sortedPosts l)) 1
               (JS.ceil_div (Z.of_nat (List.length l)) 6))))
  /\ (forall f, get_posts q f = get_posts (Some "1"%string) f).
Proof.
  intros H.
  assert (page_of q = 1) as Hpage.
  { unfold page_of. destruct H as [->|[->| ->]]; reflexivity. }
  split.
  - rewrite (get_posts_from q 1 l Hpage) by lia. reflexivity.
  - intros f. unfold get_posts. now rewrite Hpage.
Qed.

End App.

(** ** Concrete runs *)

Lemma create_appends_witness :
  post_add_post plain_text submission "2024-03-01T10:00:00.000Z"
    (Holds {| posts := two_posts |})
  = (Holds {| posts :=
                two_posts
                ++ [{| id := 3; title := "T"; content := "abc def";
                       excerpt := "abc def..."; author := "ann";
                       createdAt := "2024-03-01T10:00:00.000Z";
                       readingTime := 1 |}] |},
     inr (Redirect "/post?id=3")).
Proof.
  exact (proj1 (create_appends plain_text submission
                  "2024-03-01T10:00:00.000Z" two_posts
                  eq_refl eq_refl eq_refl)).
Defined.

Lemma create_rejects_witness :
  missing (b_author no_author) = true
  /\ post_add_post plain_text no_author "2024-03-01T10:00:00.000Z"
       (Holds {| posts := two_posts |})
     = (Holds {| posts := two_posts |},
        inr (Render 400 (error_view "All fields are required"))).
Proof.
  split; [reflexivity|].
  exact (create_rejects plain_text no_author _ _
           (or_intror (or_intror eq_refl))).
Defined.

Lemma create_excerpt_witness :
  exists post,
    fst (post_add_post plain_text submission "2024-03-01T10:00:00.000Z"
           (Holds {| posts := two_posts |}))
    = Holds {| posts := two_posts ++ [post] |}
    /\ excerpt post = "abc def..."%string.
Proof.
  destruct (create_excerpt plain_text submission
              "2024-03-01T10:00:00.000Z" two_posts
              eq_refl eq_refl eq_refl) as (post & Hfile & Hexcerpt & _).
  exists post. split; [exact Hfile | exact Hexcerpt].
Defined.

(** C8 as it is stated fails: an excerpt that is supplied but empty is
    not the excerpt stored, even under a sanitizer that changes
    nothing. *)
Lemma excerpt_supplied_not_stored :
  ~ (forall (body : Body) (now : string) (l : list Post) (post : Post),
        missing (b_title body) = false ->
        missing (b_content body) = false ->
        missing (b_author body) = false ->
        fst (post_add_post plain_text body now (Holds {| posts := l |}))
        = Holds {| posts := l ++ [post] |} ->
        excerpt post
        = match b_excerpt body with
          | Some e => e
          | None =>
              (JS.substring0 150 (field (b_content body)) ++ "...")%string
          end).
Proof.
  intros claim.
  specialize (claim submission "2024-03-01T10:00:00.000Z"%string []
                {| id := 1; title := "T"; content := "abc def";
                   excerpt := "abc def..."; author := "ann";
                   createdAt := "2024-03-01T10:00:00.000Z";
                   readingTime := 1 |}
                eq_refl eq_refl eq_refl eq_refl).
  discriminate claim.
Qed.


Lemma post_nan_not_found_witness :
  JS.parseInt_param (Some "latest"%string) = None
  /\ get_post no_markdown plain_text no_defaults iso_time
       (Some "latest"%string) (Holds {| posts := two_posts |})
     = (Holds {| posts := two_posts |},
        inr (Render 404 (error_view "Post not found"))).
Proof.
  split; [reflexivity|].
  apply (post_nan_not_found no_markdown plain_text no_defaults iso_time
           (Some "latest"%string)).
  right. reflexivity.
Defined.

Lemma store_frame_witness :
  read_only (GET_posts None) = true
  /\ (fst (handle no_markdown plain_text no_defaults iso_time
             (GET_posts None) (Holds {| posts := two_posts |}))
      = Holds {| posts := two_posts |}
      \/ (Holds {| posts := two_posts |} = Absent
          /\ fst (handle no_markdown plain_text no_defaults iso_time
                    (GET_posts None) (Holds {| posts := two_posts |}))
             = Holds {| posts := [] |})).
Proof.
  split; [reflexivity|].
  apply (store_frame no_markdown plain_text no_defaults iso_time).
  reflexivity.
Defined.

(** The example of the specification: the page of post 1 has no previous
    post, and B as its next post. *)
Lemma post_neighbours_witness :
  JS.parseInt_param (Some "1"%string) = Some 1
  /\ In 1 (map id two_posts)
  /\ exists post k,
       get_post no_markdown plain_text no_defaults iso_time
         (Some "1"%string) (Holds {| posts := two_posts |})
       = (Holds {| posts := two_posts |},
          inr (Render 200
                 (post_view post "text"
                    None (Some (entry 2 "B" "2024-02-01")))))
       /\ id post = 1
       /\ nth_error (sortedPosts iso_time two_posts) k = Some post.
Proof.
  split; [reflexivity | split; [now left|]].
  destruct (post_neighbours no_markdown plain_text no_defaults iso_time
              (Some "1"%string) 1 two_posts eq_refl (or_introl eq_refl))
    as (post & k & Hrun & _ & Hid & _ & _ & Hat & _).
  exists post, k. split; [|split; [exact Hid|]].
  - assert (get_post no_markdown plain_text no_defaults iso_time
              (Some "1"%string) (Holds {| posts := two_posts |})
            = (Holds {| posts := two_posts |},
               inr (Render 200
                      (post_view (entry 1 "A" "2024-01-01") "text"
                         None (Some (entry 2 "B" "2024-02-01"))))))
      as Hrun' by (vm_compute; reflexivity).
    rewrite Hrun' in Hrun. injection Hrun as <- _ _ _. exact Hrun'.
  - apply Hat. repeat constructor; cbn; intuition discriminate.
Defined.

Lemma pages_partition_witness :
  List.concat
    (map (fun p => listed (get_posts iso_time (Some (JS.toString p))
                             (Holds {| posts := week |})))
       [1; 2])
  = sortedPosts iso_time week
  /\ (NoDup week ->
      forall x,
        In x (listed (get_posts iso_time (Some "1"%string)
                        (Holds {| posts := week |}))) ->
        In x (listed (get_posts iso_time (Some "2"%string)
                        (Holds {| posts := week |}))) ->
        False).
Proof.
  destruct (pages_partition iso_time week) as (_ & Hcat & Hdis & _).
  split; [exact Hcat|].
  intros Hnd x. apply (Hdis Hnd 1 2 x); lia.
Defined.


(** C3 at a negative page: on seven posts, page -1 is not page 1.  The
    test [parseInt(page) || 1] lets -1 through; the offset is -12 and
    [slice(-12, -6)] counts from the end of the array, so that the page
    shows the newest post alone, under the page number -1. *)
Theorem negative_page_not_first :
  get_posts iso_time (Some "-1"%string) (Holds {| posts := week |})
  = (Holds {| posts := week |},
     inr (Render 200
            (posts_view [entry 7 "Sun" "2024-01-07T08:00:00.000Z"]
               (-1) 2)))
  /\ get_posts iso_time (Some "1"%string) (Holds {| posts := week |})
     = (Holds {| posts := week |},
        inr (Render 200
               (posts_view
                  [entry 7 "Sun" "2024-01-07T08:00:00.000Z";
                   entry 6 "Sat" "2024-01-06T08:00:00.000Z";
                   entry 5 "Fri" "2024-01-05T08:00:00.000Z";
                   entry 4 "Thu" "2024-01-04T08:00:00.000Z";
                   entry 3 "Wed" "2024-01-03T08:00:00.000Z";
                   entry 2 "Tue" "2024-01-02T08:00:00.000Z"]
                  1 2)))
  /\ get_posts iso_time (Some "-1"%string) (Holds {| posts := week |})
     <> get_posts iso_time (Some "1"%string) (Holds {| posts := week |}).
Proof.
  split; [|split]; [vm_compute; reflexivity.. | ].
  vm_compute. discriminate.
Qed.

(** ** Concrete runs of the further properties *)

Lemma page_past_end_empty_witness :
  JS.parseInt_param (Some "5"%string) = Some 5
  /\ 6 * 5 <= 2 ^ 53
  /\ JS.ceil_div (Z.of_nat (List.length week)) 6 < 5
  /\ get_posts iso_time (Some "5"%string) (Holds {| posts := week |})
     = (Holds {| posts := week |}, inr (Render 200 (posts_view [] 5 2))).
Proof.
  assert (6 * 5 <= 2 ^ 53) as Hsmall by (vm_compute; discriminate).
  split; [reflexivity | split; [exact Hsmall | split; [reflexivity|]]].
  exact (page_past_end_empty iso_time (Some "5"%string) 5 week
           eq_refl Hsmall eq_refl).
Defined.

Lemma page_sizes_witness :
  1 <= 2 <= JS.ceil_div (Z.of_nat (List.length week)) 6
  /\ Z.of_nat
       (List.length
          (listed (get_posts iso_time (Some (JS.toString 2))
                     (Holds {| posts := week |}))))
     = 1.
Proof.
  assert (1 <= 2 <= JS.ceil_div (Z.of_nat (List.length week)) 6) as H
    by (vm_compute; split; discriminate).
  split; [exact H|].
  destruct (page_sizes iso_time week 2 H) as (_ & Hlast & _).
  exact (Hlast eq_refl).
Defined.

Lemma unknown_id_not_found_witness :
  JS.parseInt_param (Some "9"%string) = Some 9
  /\ ~ In 9 (map id two_posts)
  /\ get_post no_markdown plain_text no_defaults iso_time
       (Some "9"%string) (Holds {| posts := two_posts |})
     = (Holds {| posts := two_posts |},
        inr (Render 404 (error_view "Post not found"))).
Proof.
  assert (~ In 9 (map id two_posts)) as H
    by (cbn; intros [E|[E|[]]]; discriminate E).
  split; [reflexivity | split; [exact H|]].
  exact (unknown_id_not_found no_markdown plain_text no_defaults iso_time
           (Some "9"%string) 9 two_posts eq_refl H).
Defined.

Lemma reads_are_repeatable_witness :
  read_only GET_home = true
  /\ handle no_markdown plain_text no_defaults iso_time GET_home
       (Holds {| posts := [] |})
     = (Holds {| posts := [] |}, inr (Render 200 (home []))).
Proof.
  split; [reflexivity|].
  exact (reads_are_repeatable no_markdown plain_text no_defaults iso_time
           GET_home Absent eq_refl).
Defined.

Lemma created_post_is_shown_witness :
  exists html prev next,
    get_post no_markdown plain_text no_defaults iso_time
      (Some "3"%string)
      (fst (post_add_post plain_text submission
              "2024-03-01T10:00:00.000Z"
              (Holds {| posts := two_posts |})))
    = (fst (post_add_post plain_text submission
              "2024-03-01T10:00:00.000Z"
              (Holds {| posts := two_posts |})),
       inr (Render 200
              (post_view
                 (newPost plain_text two_posts "T" "abc def" "ann"
                    (Some ""%string) "2024-03-01T10:00:00.000Z")
                 html prev next))).
Proof.
  destruct (created_post_is_shown no_markdown plain_text no_defaults
              iso_time submission "2024-03-01T10:00:00.000Z" two_posts
              Absent eq_refl eq_refl eq_refl)
    as (html & prev & next & _ & Hshown & _).
  exists html, prev, next. exact Hshown.
Defined.

Lemma creation_keeps_invariants_witness :
  NoDup (map id two_posts)
  /\ (forall p, In p two_posts -> 1 <= id p)
  /\ exists stored,
       fst (post_add_post plain_text submission
              "2024-03-01T10:00:00.000Z"
              (Holds {| posts := two_posts |}))
       = Holds {| posts := stored |}
       /\ NoDup (map id stored).
Proof.
  assert (NoDup (map id two_posts)) as Hnd.
  { cbn. repeat constructor; cbn; intros H;
      repeat (destruct H as [H|H]; [discriminate H|]); exact H. }
  assert (forall p, In p two_posts -> 1 <= id p) as Hpos.
  { intros p [<-|[<-|[]]]; cbn; discriminate. }
  split; [exact Hnd | split; [exact Hpos|]].
  destruct (creation_keeps_invariants plain_text submission
              "2024-03-01T10:00:00.000Z" two_posts
              eq_refl eq_refl eq_refl Hnd Hpos)
    as (stored & Hfile & Hnd' & _).
  exists stored. split; [exact Hfile | exact Hnd'].
Defined.

Lemma successive_ids_witness :
  exists first second,
    fst (post_add_post plain_text submission "2024-03-02T10:00:00.000Z"
           (fst (post_add_post plain_text submission
                   "2024-03-01T10:00:00.000Z"
                   (Holds {| posts := two_posts |}))))
    = Holds {| posts := two_posts ++ [first; second] |}
    /\ id second = id first + 1.
Proof.
  exact (successive_ids plain_text submission submission
           "2024-03-01T10:00:00.000Z" "2024-03-02T10:00:00.000Z"
           two_posts eq_refl eq_refl eq_refl eq_refl eq_refl eq_refl).
Defined.

Lemma newest_post_leads_witness :
  (forall p, In p two_posts ->
             iso_time (createdAt p) < iso_time "2024-03-01T10:00:00.000Z")
  /\ featured
       (get_home iso_time
          (fst (post_add_post plain_text submission
                  "2024-03-01T10:00:00.000Z"
                  (Holds {| posts := two_posts |}))))
     = newPost plain_text two_posts "T" "abc def" "ann" (Some ""%string)
         "2024-03-01T10:00:00.000Z"
       :: firstn 2 (sortedPosts iso_time two_posts).
Proof.
  assert (forall p, In p two_posts ->
                    iso_time (createdAt p)
                    < iso_time "2024-03-01T10:00:00.000Z") as Hnew.
  { intros p [<-|[<-|[]]]; reflexivity. }
  split; [exact Hnew|].
  exact (proj1 (newest_post_leads no_markdown plain_text no_defaults
                  iso_time submission "2024-03-01T10:00:00.000Z"
                  two_posts eq_refl eq_refl eq_refl Hnew)).
Defined.

Lemma search_keeps_listing_order_witness :
  "b"%string <> ""%string
  /\ found (get_search iso_time (Some "b"%string)
              (Holds {| posts := two_posts |}))
     = filter (matches "b") (sortedPosts iso_time two_posts).
Proof.
  assert ("b"%string <> ""%string) as H by discriminate.
  split; [exact H|].
  exact (search_keeps_listing_order iso_time "b" two_posts H).
Defined.

Lemma search_narrows_witness :
  "ex"%string <> ""%string
  /\ occurs_ci "ex" "TEXT"
  /\ forall p,
       In p (found (get_search iso_time (Some "TEXT"%string)
                      (Holds {| posts := two_posts |}))) ->
       In p (found (get_search iso_time (Some "ex"%string)
                      (Holds {| posts := two_posts |}))).
Proof.
  assert ("ex"%string <> ""%string) as H by discriminate.
  assert (capital "E") as HE by (unfold capital; cbn; lia).
  assert (capital "X") as HX by (unfold capital; cbn; lia).
  assert (occurs_ci "ex" "TEXT") as Hocc.
  { exists "T"%string, "EX"%string, "T"%string. split; [reflexivity|].
    apply (same_String "E" "e" "X" "x"); [exact (capital_small "E" HE)|].
    apply (same_String "X" "x" "" ""); [exact (capital_small "X" HX)|].
    exact same_empty. }
  split; [exact H | split; [exact Hocc|]].
  exact (search_narrows iso_time "ex" "TEXT" two_posts H Hocc).
Defined.

Lemma navigation_is_symmetric_witness :
  NoDup (map id two_posts)
  /\ In (entry 2 "B" "2024-02-01") two_posts
  /\ (prev_of
        (get_post no_markdown plain_text no_defaults iso_time
           (Some (JS.toString 2)) (Holds {| posts := two_posts |}))
      = Some (entry 1 "A" "2024-01-01") ->
      next_of
        (get_post no_markdown plain_text no_defaults iso_time
           (Some (JS.toString 1)) (Holds {| posts := two_posts |}))
      = Some (entry 2 "B" "2024-02-01")).
Proof.
  assert (NoDup (map id two_posts)) as Hnd.
  { cbn. repeat constructor; cbn; intros H;
      repeat (destruct H as [H|H]; [discriminate H|]); exact H. }
  assert (In (entry 2 "B" "2024-02-01") two_posts) as Hin
    by (right; left; reflexivity).
  split; [exact Hnd | split; [exact Hin|]].
  exact (proj1 (navigation_is_symmetric no_markdown plain_text
                  no_defaults iso_time two_posts
                  (entry 2 "B" "2024-02-01") (entry 1 "A" "2024-01-01")
                  Hnd Hin)).
Defined.

Lemma page_defaults_to_first_witness :
  JS.parseInt_param (Some "first"%string) = None
  /\ get_posts iso_time (Some "first"%string)
       (Holds {| posts := week |})
     = (Holds {| posts := week |},
        inr (Render 200
               (posts_view (firstn 6 (sortedPosts iso_time week)) 1 2))).
Proof.
  split; [reflexivity|].
  exact (proj1 (page_defaults_to_first iso_time (Some "first"%string)
                  week (or_intror (or_introl eq_refl)))).
Defined.

End Blog.
